(** * The Battleship rules engine of [server/py/battleship.py]

    A shallow embedding of the [Battleship] class: its ship roster, its game
    state, and the five methods [get_state], [set_state], [get_list_action],
    [apply_action] and [get_player_view].

    The Python objects the engine mutates are modelled as follows.

    - [Ship] objects live in a store (a list of ship records); a reference to
      a ship is its position in the store.  The roster [self.ships] and the
      [ships] list of every player hold references, so a ship placed by a
      player is the roster's own object, as in the source.
    - [self.state] is one object: [get_state] hands out that object, and what
      a caller reads through it later is read in the store of that moment.
    - A [PlayerState] is held by value at its position in [state.players], and
      the lists [shots], [successful_shots], [ships] and a ship's [location]
      are held by value too: as [__init__] builds them, every list and every
      player is held in one place only.
    - [BattleshipAction] is a pydantic model, and a pydantic model takes its
      fields by keyword only.  The two calls [BattleshipAction(t, n, l)] of
      [get_list_action] give the fields by position, so they raise
      [TypeError]; they are modelled as such.  An action a caller hands to
      [apply_action] is a record of the three fields.
    - A method runs in the state-and-exception monad [M]: a raised exception
      leaves the mutations done before it in place. *)

From Stdlib Require Import ZArith Ascii String DecimalString Bool Lia.
From stdpp Require Import base list.

Open Scope string_scope.
Open Scope Z_scope.

(** ** Python values and built-ins *)

(** The exceptions the methods can raise.  The source defines no exception
    class of its own. *)
Inductive exn : Type :=
| StopIteration
| IndexError
| TypeError.

(** The class name of an exception, as Python prints it. *)
Definition exn_name (x : exn) : string :=
  match x with
  | StopIteration => "StopIteration"
  | IndexError => "IndexError"
  | TypeError => "TypeError"
  end.

(** [l[i]] reads position [i], counted from the end when [i] is negative;
    [py_pos] is the position read, if there is one. *)
Definition py_pos {A : Type} (l : list A) (i : Z) : option nat :=
  let n := Z.of_nat (length l) in
  if (0 <=? i) && (i <? n) then Some (Z.to_nat i)
  else if (- n <=? i) && (i <? 0) then Some (Z.to_nat (n + i))
  else None.

(** [range(a, b)] *)
Definition py_range (a b : Z) : list Z :=
  map (fun k => a + Z.of_nat k) (seq 0 (Z.to_nat (b - a))).

(** [x in l] on a list of strings *)
Definition py_in (x : string) (l : list string) : bool :=
  existsb (String.eqb x) l.

(** [l.remove(x)]: the first occurrence goes (the call is only made when
    there is one). *)
Fixpoint py_remove (x : string) (l : list string) : list string :=
  match l with
  | [] => []
  | y :: l' => if String.eqb x y then l' else y :: py_remove x l'
  end.

(** [chr(n)], for the one-byte code points the grid uses. *)
Definition chr (n : Z) : ascii := ascii_of_N (Z.to_N n).

(** [str(n)] of an integer, as an f-string formats it. *)
Definition py_str (n : Z) : string := NilZero.string_of_int (Z.to_int n).

(** [f"{chr(65 + i)}{k + 1}"]: the cell in row [i], column [k] (from 0). *)
Definition coord (i k : Z) : string := String (chr (65 + i)) (py_str (k + 1)).

(** ** The data model *)

Inductive ActionType : Type :=
| SET_SHIP
| SHOOT.

Inductive GamePhase : Type :=
| SETUP
| RUNNING
| FINISHED.

Definition GamePhase_eqb (p q : GamePhase) : bool :=
  match p, q with
  | SETUP, SETUP | RUNNING, RUNNING | FINISHED, FINISHED => true
  | _, _ => false
  end.

(** A reference to a [Ship] object: its position in the store. *)
Abbreviation ref := nat (only parsing).

Module BattleshipAction.
Record t : Type := mk {
  action_type : ActionType;
  ship_name : option string;
  location : list string
}.
End BattleshipAction.

Module Ship.
Record t : Type := mk {
  name : string;
  length : Z;
  location : option (list string)
}.

(** [ship.location = l] *)
Definition set_location (l : option (list string)) (s : t) : t :=
  mk (name s) (length s) l.
End Ship.

Module PlayerState.
Record t : Type := mk {
  name : string;
  ships : list ref;
  shots : list string;
  successful_shots : list string
}.

(** [player.ships.append(r)] *)
Definition append_ship (r : ref) (p : t) : t :=
  mk (name p) (ships p ++ [r]) (shots p) (successful_shots p).

(** [player.shots.append(c)] *)
Definition append_shot (c : string) (p : t) : t :=
  mk (name p) (ships p) (shots p ++ [c]) (successful_shots p).

(** [player.successful_shots.append(c)] *)
Definition append_successful_shot (c : string) (p : t) : t :=
  mk (name p) (ships p) (shots p) (successful_shots p ++ [c]).
End PlayerState.

Module BattleshipGameState.
Record t : Type := mk {
  idx_player_active : Z;
  phase : GamePhase;
  winner : option Z;
  players : list PlayerState.t
}.

Definition set_idx_player_active (i : Z) (st : t) : t :=
  mk i (phase st) (winner st) (players st).

Definition set_phase (ph : GamePhase) (st : t) : t :=
  mk (idx_player_active st) ph (winner st) (players st).

Definition set_winner (w : option Z) (st : t) : t :=
  mk (idx_player_active st) (phase st) w (players st).

Definition set_players (ps : list PlayerState.t) (st : t) : t :=
  mk (idx_player_active st) (phase st) (winner st) ps.
End BattleshipGameState.

(** ** The engine *)

Module Battleship.

(** The engine object: the attributes [grid_size], [ships] (the roster) and
    [state], together with the store of the [Ship] objects they refer to. *)
Record t : Type := mk {
  grid_size : Z;
  ships : list ref;
  store : list Ship.t;
  state : BattleshipGameState.t
}.

(** *** Methods as computations on the engine *)

(** What a call comes to: it returns, it raises, or it follows a reference
    that is not in the store (which no Python run does). *)
Inductive result (A : Type) : Type :=
| Returns (x : A)
| Raises (x : exn)
| Dangling.

Arguments Returns {A} x.
Arguments Raises {A} x.
Arguments Dangling {A}.

Definition M (A : Type) : Type := t -> result A * t.

Definition ret {A : Type} (x : A) : M A := fun e => (Returns x, e).

Definition raise {A : Type} (x : exn) : M A := fun e => (Raises x, e).

Definition bind {A B : Type} (m : M A) (k : A -> M B) : M B :=
  fun e =>
    match m e with
    | (Returns x, e') => k x e'
    | (Raises x, e') => (Raises x, e')
    | (Dangling, e') => (Dangling, e')
    end.

Notation "x <- m ;; k" := (bind m (fun x => k))
  (at level 100, m at next level, right associativity).
Notation "m ;; k" := (bind m (fun _ => k))
  (at level 100, right associativity).

Definition gets {A : Type} (f : t -> A) : M A := fun e => (Returns (f e), e).

Definition modify (f : t -> t) : M unit := fun e => (Returns tt, f e).

(** [l[i]], as the element and as the position it sits at. *)
Definition getitem {A : Type} (l : list A) (i : Z) : M A :=
  match py_pos l i with
  | Some n => match l !! n with Some x => ret x | None => raise IndexError end
  | None => raise IndexError
  end.

Definition position {A : Type} (l : list A) (i : Z) : M nat :=
  match py_pos l i with
  | Some n => ret n
  | None => raise IndexError
  end.

(** Reading and updating the player at a position of [state.players]. *)
Definition player (pos : nat) : M PlayerState.t :=
  fun e =>
    match BattleshipGameState.players (state e) !! pos with
    | Some p => (Returns p, e)
    | None => (Dangling, e)
    end.

Definition update_state (f : BattleshipGameState.t -> BattleshipGameState.t) : M unit :=
  modify (fun e => mk (grid_size e) (ships e) (store e) (f (state e))).

Definition update_player (pos : nat) (f : PlayerState.t -> PlayerState.t) : M unit :=
  update_state (fun st =>
    BattleshipGameState.set_players (alter f pos (BattleshipGameState.players st)) st).

(** Reading and updating the ship a reference points to. *)
Definition deref (r : ref) : M Ship.t :=
  fun e =>
    match store e !! r with
    | Some s => (Returns s, e)
    | None => (Dangling, e)
    end.

Definition update_ship (r : ref) (f : Ship.t -> Ship.t) : M unit :=
  modify (fun e => mk (grid_size e) (ships e) (alter f r (store e)) (state e)).

(** [__init__] *)
Definition init : t :=
  mk 10
     [0%nat; 1%nat; 2%nat; 3%nat; 4%nat]
     [ Ship.mk "Carrier" 5 (Some []);
       Ship.mk "Battleship" 4 (Some []);
       Ship.mk "Cruiser" 3 (Some []);
       Ship.mk "Submarine" 3 (Some []);
       Ship.mk "Destroyer" 2 (Some []) ]
     (BattleshipGameState.mk 0 SETUP None
        [ PlayerState.mk "Player 1" [] [] [];
          PlayerState.mk "Player 2" [] [] [] ]).

(** [get_state]: the state object itself. *)
Definition get_state : M BattleshipGameState.t := gets state.

(** [set_state] *)
Definition set_state (st : BattleshipGameState.t) : M unit :=
  update_state (fun _ => st).

(** [s.name == action.ship_name] *)
Definition name_is (nm : option string) (s : Ship.t) : bool :=
  match nm with
  | Some n => String.eqb (Ship.name s) n
  | None => false
  end.

(** [next(s for s in self.ships if s.name == action.ship_name)] *)
Fixpoint next_named (nm : option string) (rs : list ref) : M ref :=
  match rs with
  | [] => raise StopIteration
  | r :: rest =>
      s <- deref r ;;
      if name_is nm s then ret r else next_named nm rest
  end.

(** The loop of the SHOOT branch, with its [break]. *)
Fixpoint shoot_scan (active_player : nat) (target : string) (rs : list ref) : M unit :=
  match rs with
  | [] => ret tt
  | ship :: rest =>
      s <- deref ship ;;
      match Ship.location s with
      | None => raise TypeError
      | Some cells =>
          if py_in target cells then
            update_player active_player (PlayerState.append_successful_shot target) ;;
            update_ship ship (Ship.set_location (Some (py_remove target cells)))
          else shoot_scan active_player target rest
      end
  end.

(** [all(len(ship.location) == 0 for ship in opponent.ships)] *)
Fixpoint all_sunk (rs : list ref) : M bool :=
  match rs with
  | [] => ret true
  | ship :: rest =>
      s <- deref ship ;;
      match Ship.location s with
      | None => raise TypeError
      | Some cells => if (length cells =? 0)%nat then all_sunk rest else ret false
      end
  end.

(** [all(len(p.ships) == len(self.ships) for p in self.state.players)] *)
Definition all_placed (n : nat) (ps : list PlayerState.t) : bool :=
  forallb (fun p => (length (PlayerState.ships p) =? n)%nat) ps.

(** The SET_SHIP branch of [apply_action]. *)
Definition apply_set_ship (action : BattleshipAction.t) (active_player : nat) : M unit :=
  roster <- gets ships ;;
  ship <- next_named (BattleshipAction.ship_name action) roster ;;
  update_ship ship (Ship.set_location (Some (BattleshipAction.location action))) ;;
  update_player active_player (PlayerState.append_ship ship) ;;
  p <- player active_player ;;
  st <- gets state ;;
  if (length (PlayerState.ships p) =? length roster)%nat
     && all_placed (length roster) (BattleshipGameState.players st)
  then update_state (BattleshipGameState.set_phase RUNNING)
  else ret tt.

(** The SHOOT branch of [apply_action]. *)
Definition apply_shoot (action : BattleshipAction.t) (active_player : nat) : M unit :=
  target <- getitem (BattleshipAction.location action) 0 ;;
  update_player active_player (PlayerState.append_shot target) ;;
  st <- gets state ;;
  opponent <- position (BattleshipGameState.players st)
                       (1 - BattleshipGameState.idx_player_active st) ;;
  o <- player opponent ;;
  shoot_scan active_player target (PlayerState.ships o) ;;
  o <- player opponent ;;
  sunk <- all_sunk (PlayerState.ships o) ;;
  if sunk then
    update_state (BattleshipGameState.set_phase FINISHED) ;;
    st <- gets state ;;
    update_state (BattleshipGameState.set_winner
                    (Some (BattleshipGameState.idx_player_active st)))
  else ret tt.

(** The last statement of [apply_action]: the turn passes while the game
    runs. *)
Definition advance_turn : M unit :=
  st <- gets state ;;
  if GamePhase_eqb (BattleshipGameState.phase st) RUNNING then
    update_state (BattleshipGameState.set_idx_player_active
                    (1 - BattleshipGameState.idx_player_active st))
  else ret tt.

(** [apply_action] *)
Definition apply_action (action : BattleshipAction.t) : M unit :=
  st <- gets state ;;
  active_player <- position (BattleshipGameState.players st)
                            (BattleshipGameState.idx_player_active st) ;;
  match BattleshipAction.action_type action with
  | SET_SHIP => apply_set_ship action active_player
  | SHOOT => apply_shoot action active_player
  end ;;
  advance_turn.

(** The horizontal run of [len] cells of row [i] that starts in column [j]:
    [[f"{chr(65 + i)}{k + 1}" for k in range(j, j + len)]] *)
Definition run_cells (i j len : Z) : list string :=
  map (coord i) (py_range j (j + len)).

(** [BattleshipAction(action_type, ship_name, location)], the arguments by
    position, as the two calls of [get_list_action] have them.  The
    constructor of a pydantic model has no positional parameter but the
    object itself: the call raises [TypeError] and builds nothing. *)
Definition new_action (action_type : ActionType) (ship_name : option string)
           (location : list string) : M BattleshipAction.t :=
  raise TypeError.

(** A [for] loop over [l] whose body works on the list [actions]: the body
    gets the list as the passes before have left it. *)
Fixpoint for_each {A : Type}
         (body : A -> list BattleshipAction.t -> M (list BattleshipAction.t))
         (l : list A) (actions : list BattleshipAction.t)
  : M (list BattleshipAction.t) :=
  match l with
  | [] => ret actions
  | x :: rest =>
      actions' <- body x actions ;;
      for_each body rest actions'
  end.

(** The two loops of the SETUP branch of [get_list_action] for the ship [s]. *)
Definition placements (g : Z) (s : Ship.t) (actions : list BattleshipAction.t)
  : M (list BattleshipAction.t) :=
  for_each (fun i =>
    for_each (fun j actions =>
                let location := run_cells i j (Ship.length s) in
                action <- new_action SET_SHIP (Some (Ship.name s)) location ;;
                ret (actions ++ [action])%list)
             (py_range 0 (g - Ship.length s + 1)))
    (py_range 0 g) actions.

(** The two loops of the RUNNING branch of [get_list_action] for a player
    who has fired at [fired]. *)
Definition targets (g : Z) (fired : list string) (actions : list BattleshipAction.t)
  : M (list BattleshipAction.t) :=
  for_each (fun i =>
    for_each (fun j actions =>
                let target := coord i j in
                if negb (py_in target fired) then
                  action <- new_action SHOOT None [target] ;;
                  ret (actions ++ [action])%list
                else ret actions)
             (py_range 0 g))
    (py_range 0 g) actions.

(** [get_list_action] *)
Definition get_list_action : M (list BattleshipAction.t) :=
  let actions := [] in
  st <- gets state ;;
  active_player <- position (BattleshipGameState.players st)
                            (BattleshipGameState.idx_player_active st) ;;
  p <- player active_player ;;
  match BattleshipGameState.phase st with
  | SETUP =>
      roster <- gets ships ;;
      if (length (PlayerState.ships p) <? length roster)%nat then
        ship <- getitem roster (Z.of_nat (length (PlayerState.ships p))) ;;
        s <- deref ship ;;
        g <- gets grid_size ;;
        placements g s actions
      else ret actions
  | RUNNING =>
      g <- gets grid_size ;;
      targets g (PlayerState.shots p) actions
  | FINISHED => ret actions
  end.

(** The loop of [get_player_view]: [ship.location = []] for every ship. *)
Fixpoint clear_locations (rs : list ref) : M unit :=
  match rs with
  | [] => ret tt
  | ship :: rest =>
      update_ship ship (Ship.set_location (Some [])) ;;
      clear_locations rest
  end.

(** [get_player_view]: [state_copy] is the object [get_state] returns. *)
Definition get_player_view (idx_player : Z) : M BattleshipGameState.t :=
  state_copy <- get_state ;;
  opponent <- getitem (BattleshipGameState.players state_copy) (1 - idx_player) ;;
  clear_locations (PlayerState.ships opponent) ;;
  ret state_copy.

(** *** Reading a state *)

(** The engine after a call, whatever the call came to. *)
Definition after {A : Type} (m : M A) (e : t) : t := snd (m e).

(** The ships a player of the state [st] holds, read in the store of [e]:
    what a caller sees in [st.players[i].ships]. *)
Definition ships_of (e : t) (st : BattleshipGameState.t) (i : nat) : list (option Ship.t) :=
  match BattleshipGameState.players st !! i with
  | Some p => map (fun r => store e !! r) (PlayerState.ships p)
  | None => []
  end.

(** The locations of these ships. *)
Definition locations_of (e : t) (st : BattleshipGameState.t) (i : nat)
  : list (option (list string)) :=
  map (fun o => match o with Some s => Ship.location s | None => None end)
      (ships_of e st i).

End Battleship.

Import Battleship.

(** ** Reading an engine *)

Definition phase_of (e : t) : GamePhase := BattleshipGameState.phase (state e).

Definition active_index (e : t) : Z := BattleshipGameState.idx_player_active (state e).

Definition winner_of (e : t) : option Z := BattleshipGameState.winner (state e).

Definition players_of (e : t) : list PlayerState.t := BattleshipGameState.players (state e).

(** The cells of the ship [r] points to, if the ship is there and its
    [location] is a list. *)
Definition ship_cells (h : list Ship.t) (r : ref) : option (list string) :=
  match h !! r with
  | Some s => Ship.location s
  | None => None
  end.

(** Every ship of [rs] is in the store and has a [location] list. *)
Definition placed (h : list Ship.t) (rs : list ref) : Prop :=
  Forall (fun r => is_Some (ship_cells h r)) rs.

(** [target in ship.location] for the ship [r] points to. *)
Definition ship_has (h : list Ship.t) (target : string) (r : ref) : bool :=
  match ship_cells h r with
  | Some cells => py_in target cells
  | None => false
  end.

(** [len(ship.location) == 0] for the ship [r] points to. *)
Definition ship_sunk (h : list Ship.t) (r : ref) : bool :=
  match ship_cells h r with
  | Some cells => (length cells =? 0)%nat
  | None => false
  end.

(** The first ship of [rs] that has the cell [target]. *)
Fixpoint first_hit (h : list Ship.t) (target : string) (rs : list ref) : option ref :=
  match rs with
  | [] => None
  | r :: rest => if ship_has h target r then Some r else first_hit h target rest
  end.

(** The ships [rs] in the order the roster has them. *)
Definition roster_order (e : t) (rs : list ref) : list ref :=
  filter (fun r => r ∈ rs) (ships e).

(** ** The engine's states *)

(** The states [apply_action] leads to from a new engine; a call that raises
    counts, with whatever it did before raising. *)
Inductive reachable : t -> Prop :=
| reachable_init : reachable init
| reachable_apply (e : t) (action : BattleshipAction.t) :
    reachable e -> reachable (after (apply_action action) e).


(** ** The SHOOT branch, step by step *)

(** The engine once [target] is in the shots of the player at [i]. *)
Definition shot (i : nat) (target : string) (e : t) : t :=
  mk (grid_size e) (ships e) (store e)
     (BattleshipGameState.set_players
        (alter (PlayerState.append_shot target) i (players_of e)) (state e)).

(** The engine once the ship [r] is hit at [target] by the player at [i]. *)
Definition hit (i : nat) (target : string) (r : ref) (e : t) : t :=
  match ship_cells (store e) r with
  | Some cells =>
      mk (grid_size e) (ships e)
         (alter (Ship.set_location (Some (py_remove target cells))) r (store e))
         (BattleshipGameState.set_players
            (alter (PlayerState.append_successful_shot target) i (players_of e))
            (state e))
  | None => e
  end.

(** The engine after the loop over the ships [rs]. *)
Definition scanned (i : nat) (target : string) (rs : list ref) (e : t) : t :=
  match first_hit (store e) target rs with
  | Some r => hit i target r e
  | None => e
  end.

(** The engine after the test on the ships [rs] left to the opponent. *)
Definition settled (rs : list ref) (e : t) : t :=
  if forallb (ship_sunk (store e)) rs then
    mk (grid_size e) (ships e) (store e)
       (BattleshipGameState.set_winner (Some (active_index e))
          (BattleshipGameState.set_phase FINISHED (state e)))
  else e.

(** The engine after the last statement of [apply_action]. *)
Definition advanced (e : t) : t :=
  if GamePhase_eqb (phase_of e) RUNNING then
    mk (grid_size e) (ships e) (store e)
       (BattleshipGameState.set_idx_player_active (1 - active_index e) (state e))
  else e.

(** ** The SET_SHIP branch, step by step *)

(** The engine once the ship [r] has the location [loc] and is in the list
    of the player at [i]. *)
Definition put (i : nat) (r : ref) (loc : list string) (e : t) : t :=
  mk (grid_size e) (ships e)
     (alter (Ship.set_location (Some loc)) r (store e))
     (BattleshipGameState.set_players
        (alter (PlayerState.append_ship r) i (players_of e)) (state e)).

(** The test that starts the game, for the player at [i]. *)
Definition game_starts (i : nat) (e : t) : bool :=
  match players_of e !! i with
  | Some p =>
      (length (PlayerState.ships p) =? length (ships e))%nat
      && all_placed (length (ships e)) (players_of e)
  | None => false
  end.

(** The engine after that test. *)
Definition started (i : nat) (e : t) : t :=
  if game_starts i e then
    mk (grid_size e) (ships e) (store e)
       (BattleshipGameState.set_phase RUNNING (state e))
  else e.

(** Every player holds as many ships as the roster has. *)
Definition fully_placed (e : t) : bool :=
  all_placed (length (ships e)) (players_of e).

(** The ship [r] is in the store. *)
Definition stored (h : list Ship.t) (r : ref) : bool :=
  match h !! r with
  | Some _ => true
  | None => false
  end.

(** The ship [r] is in the store and has the name [nm]. *)
Definition named (h : list Ship.t) (nm : option string) (r : ref) : bool :=
  match h !! r with
  | Some s => name_is nm s
  | None => false
  end.

(** All the roster's ships are in the store. *)
Definition roster_in_store (e : t) : bool := forallb (stored (store e)) (ships e).

(** The roster has a ship of the name [nm]. *)
Definition known_ship (e : t) (nm : option string) : bool :=
  existsb (named (store e) nm) (ships e).

(** The call raised an exception of the class [cls]. *)
Definition fails_with {A : Type} (cls : string) (r : result A) : Prop :=
  exists x, r = Raises x /\ exn_name x = cls.

(** ** What holds of a game that began with [__init__] *)

(** The first player is the active one, and the second player holds no ship
    (while the roster has ships). *)
Definition first_player_only (e : t) : Prop :=
  active_index e = 0 /\ ships e <> [] /\
  exists p0 p1, players_of e = [p0; p1] /\ PlayerState.ships p1 = [].

(** ** Engines to run the methods on *)

(** A placement of the Carrier in row A. *)
Definition carrier_A1 : BattleshipAction.t :=
  BattleshipAction.mk SET_SHIP (Some "Carrier") ["A1"; "A2"; "A3"; "A4"; "A5"].

(** A new engine in which the first player has placed the Carrier. *)
Definition carrier_placed : t := after (apply_action carrier_A1) init.

(** A running game put in with [set_state]: each player holds one ship, an
    object of their own. *)
Definition duel : t :=
  mk 10 (ships init)
     (store init ++ [ Ship.mk "Destroyer" 2 (Some ["A1"; "A2"]);
                      Ship.mk "Destroyer" 2 (Some ["B1"; "B2"]) ])
     (BattleshipGameState.mk 0 RUNNING None
        [ PlayerState.mk "Player 1" [5%nat] [] [];
          PlayerState.mk "Player 2" [6%nat] [] [] ]).

(** A running game put in with [set_state] in which nobody holds a ship. *)
Definition no_ships : t :=
  after (set_state (BattleshipGameState.mk 0 RUNNING None
                      [ PlayerState.mk "Player 1" [] [] [];
                        PlayerState.mk "Player 2" [] [] [] ])) init.

(** A placement of a ship the roster does not have. *)
Definition rowing_boat : BattleshipAction.t :=
  BattleshipAction.mk SET_SHIP (Some "Rowing boat") ["A1"].

(** The setup put in with [set_state] at its last step: the second player
    holds the five ships, the first player, who is active, holds four. *)
Definition one_to_place : t :=
  after (set_state (BattleshipGameState.mk 0 SETUP None
                      [ PlayerState.mk "Player 1" [0; 1; 2; 3]%nat [] [];
                        PlayerState.mk "Player 2" [0; 1; 2; 3; 4]%nat [] [] ])) init.

(** The placement of the Destroyer in row J. *)
Definition destroyer_J1 : BattleshipAction.t :=
  BattleshipAction.mk SET_SHIP (Some "Destroyer") ["J1"; "J2"].

(** A game put in with [set_state] in which both players hold the roster's
    Carrier, the one object, as a setup by turns would leave it. *)
Definition shared_carrier : t :=
  after (set_state (BattleshipGameState.mk 0 RUNNING None
                      [ PlayerState.mk "Player 1" [0%nat] [] [];
                        PlayerState.mk "Player 2" [0%nat] [] [] ])) carrier_placed.

(** A placement of the roster ship [name] on the cells [cells]. *)
Definition place (name : string) (cells : list string) : BattleshipAction.t :=
  BattleshipAction.mk SET_SHIP (Some name) cells.

(** A new engine after five placements, one of each roster ship in the
    roster's order: the first player has placed the whole roster. *)
Definition roster_placed : t :=
  after (apply_action (place "Destroyer" ["E1"; "E2"]))
    (after (apply_action (place "Submarine" ["D1"; "D2"; "D3"]))
       (after (apply_action (place "Cruiser" ["C1"; "C2"; "C3"]))
          (after (apply_action (place "Battleship" ["B1"; "B2"; "B3"; "B4"]))
             (after (apply_action (place "Carrier" ["A1"; "A2"; "A3"; "A4"; "A5"]))
                init)))).

(** A running game put in with [set_state] in which the second player holds
    the roster's Destroyer and Carrier, in this order, both on the cell A1. *)
Definition crossed : t :=
  mk 10 (ships init)
     [ Ship.mk "Carrier" 5 (Some ["A1"]);
       Ship.mk "Battleship" 4 (Some []);
       Ship.mk "Cruiser" 3 (Some []);
       Ship.mk "Submarine" 3 (Some []);
       Ship.mk "Destroyer" 2 (Some ["A1"]) ]
     (BattleshipGameState.mk 0 RUNNING None
        [ PlayerState.mk "Player 1" [] [] [];
          PlayerState.mk "Player 2" [4%nat; 0%nat] [] [] ]).

(** A finished game put in with [set_state]: the second player has won, and
    it is the first player's turn. *)
Definition lost : t :=
  mk 10 (ships init)
     (store init ++ [ Ship.mk "Destroyer" 2 (Some ["B1"; "B2"]) ])
     (BattleshipGameState.mk 0 FINISHED (Some 1)
        [ PlayerState.mk "Player 1" [] [] [];
          PlayerState.mk "Player 2" [5%nat] [] [] ]).

(** A state put in with [set_state] whose active index is 2: there is no
    such player. *)
Definition nobody_active : t :=
  after (set_state (BattleshipGameState.mk 2 SETUP None
                      [ PlayerState.mk "Player 1" [] [] [];
                        PlayerState.mk "Player 2" [] [] [] ])) init.

(** A state put in with [set_state] whose active index is -1: the active
    player is the last one, and [1 - (-1)] is past the end of the players. *)
Definition last_active : t :=
  after (set_state (BattleshipGameState.mk (-1) RUNNING None
                      [ PlayerState.mk "Player 1" [] [] [];
                        PlayerState.mk "Player 2" [] [] [] ])) init.

(** A running game put in with [set_state] in which the second player holds
    a ship built without a location: [Ship(name="Destroyer", length=2)]. *)
Definition unplaced_ship : t :=
  mk 10 (ships init)
     (store init ++ [ Ship.mk "Destroyer" 2 None ])
     (BattleshipGameState.mk 0 RUNNING None
        [ PlayerState.mk "Player 1" [] [] [];
          PlayerState.mk "Player 2" [5%nat] [] [] ]).

(** A shot at the cell [c]. *)
Definition shoot_at (c : string) : BattleshipAction.t :=
  BattleshipAction.mk SHOOT None [c].

(** A game that is over: a shot in [no_ships]. *)
Definition game_over : t := after (apply_action (shoot_at "C3")) no_ships.

(** ** What a call may change *)

(** The record [p'] is [p] with its lists extended at the end. *)
Definition player_grown (p p' : PlayerState.t) : Prop :=
  PlayerState.name p' = PlayerState.name p
  /\ PlayerState.ships p `prefix_of` PlayerState.ships p'
  /\ PlayerState.shots p `prefix_of` PlayerState.shots p'
  /\ PlayerState.successful_shots p `prefix_of` PlayerState.successful_shots p'.

(** Every successful shot of the player is among the player's shots. *)
Definition hits_among_shots (p : PlayerState.t) : bool :=
  forallb (fun c => py_in c (PlayerState.shots p)) (PlayerState.successful_shots p).

(** Two states of one ship object: the name and the length are the same. *)
Definition same_ship (s s' : Ship.t) : Prop :=
  Ship.name s' = Ship.name s /\ Ship.length s' = Ship.length s.

(** A computation that leaves the engine as it finds it, however it ends. *)
Definition reads_only {A : Type} (m : M A) : Prop := forall e, after m e = e.

(** ** Masking, step by step *)

(** The store once the loop of [get_player_view] has gone over the ships
    [rs]. *)
Fixpoint cleared (rs : list ref) (h : list Ship.t) : list Ship.t :=
  match rs with
  | [] => h
  | r :: rest => cleared rest (alter (Ship.set_location (Some [])) r h)
  end.

(** The engine after [get_player_view] has masked the ships [rs]. *)
Definition masked (rs : list ref) (e : t) : t :=
  mk (grid_size e) (ships e) (cleared rs (store e)) (state e).

(** ** The random player and the driver *)

(** [random.choice(l)] is [l[k]] for a number [k] the generator draws below
    [len(l)], and raises [IndexError] on the empty list.  The draw is given
    as any number [k], taken modulo [len(l)]. *)
Definition choice {A : Type} (k : nat) (l : list A) : M A :=
  match l !! (k mod length l)%nat with
  | Some x => ret x
  | None => raise IndexError
  end.

Module RandomPlayer.

(** [select_action]: [None] is Python's [None]. *)
Definition select_action (k : nat) (state : BattleshipGameState.t)
           (actions : list BattleshipAction.t) : M (option BattleshipAction.t) :=
  if (0 <? length actions)%nat then
    action <- choice k actions ;;
    ret (Some action)
  else ret None.

End RandomPlayer.



(** ** Lemmas on the built-ins *)

Lemma py_pos_lt {A : Type} (l : list A) (i : Z) (n : nat) :
  py_pos l i = Some n -> (n < length l)%nat.
Proof.
  unfold py_pos. intros H.
  destruct (0 <=? i) eqn:E1, (i <? Z.of_nat (length l)) eqn:E2; simpl in H;
    try (destruct (- Z.of_nat (length l) <=? i) eqn:E3, (i <? 0) eqn:E4; simpl in H);
    try discriminate; inversion H; subst; lia.
Qed.

Lemma py_pos_lookup {A : Type} (l : list A) (i : Z) (n : nat) :
  py_pos l i = Some n -> is_Some (l !! n).
Proof. intros H. apply lookup_lt_is_Some. eapply py_pos_lt; eauto. Qed.

Lemma elem_of_py_range (a b x : Z) : x ∈ py_range a b <-> a <= x < b.
Proof.
  unfold py_range. rewrite list_elem_of_fmap. split.
  - intros (k & -> & Hk). apply elem_of_seq in Hk. lia.
  - intros H. exists (Z.to_nat (x - a)). split; [lia |].
    apply elem_of_seq. lia.
Qed.

Lemma py_in_elem_of (x : string) (l : list string) : py_in x l = true <-> x ∈ l.
Proof.
  unfold py_in. rewrite existsb_exists, list_elem_of_In. split.
  - intros (y & Hy & Heq). apply String.eqb_eq in Heq. now subst y.
  - intros H. exists x. split; [exact H | apply String.eqb_refl].
Qed.

Lemma py_in_not_elem_of (x : string) (l : list string) : py_in x l = false <-> x ∉ l.
Proof.
  rewrite <- py_in_elem_of. destruct (py_in x l); split; intros H; congruence.
Qed.

(** [l.remove(x)] takes out the first [x] of [l]. *)
Lemma py_remove_first (x : string) (before after : list string) :
  x ∉ before -> py_remove x (before ++ x :: after) = (before ++ after)%list.
Proof.
  induction before as [| y before IH]; intros Hx; simpl.
  - now rewrite String.eqb_refl.
  - apply not_elem_of_cons in Hx as [Hne Hx].
    apply String.eqb_neq in Hne. rewrite Hne. now rewrite IH.
Qed.

Lemma alter_insert {A : Type} (f : A -> A) (i : nat) (l : list A) (x : A) :
  l !! i = Some x -> alter f i l = <[i := f x]> l.
Proof.
  intros Hx. apply list_eq. intros j. destruct (decide (i = j)) as [<- | Hne].
  - rewrite list_lookup_alter_eq, Hx, list_lookup_insert_eq; [reflexivity |].
    eapply lookup_lt_Some. exact Hx.
  - now rewrite list_lookup_alter_ne, list_lookup_insert_ne.
Qed.

(** ** Lemmas on the SHOOT branch *)

Lemma placed_cons (h : list Ship.t) (r : ref) (rs : list ref) :
  placed h (r :: rs) ->
  (exists s cells, h !! r = Some s /\ Ship.location s = Some cells) /\ placed h rs.
Proof.
  intros H. inversion H as [| ? ? [cells Hc] Hrs]; subst. split; [| exact Hrs].
  unfold ship_cells in Hc. destruct (h !! r) as [s |] eqn:E; [| discriminate].
  eauto.
Qed.

Lemma ship_cells_alter (h : list Ship.t) (r r' : ref) (cells : list string) :
  is_Some (ship_cells h r') ->
  is_Some (ship_cells (alter (Ship.set_location (Some cells)) r h) r').
Proof.
  unfold ship_cells. intros [c Hc].
  destruct (decide (r = r')) as [-> | Hne].
  - rewrite list_lookup_alter_eq.
    destruct (h !! r') as [s |] eqn:E; [| discriminate].
    simpl. now exists cells.
  - rewrite list_lookup_alter_ne by exact Hne. now exists c.
Qed.

Lemma placed_alter (h : list Ship.t) (r : ref) (cells : list string) (rs : list ref) :
  placed h rs -> placed (alter (Ship.set_location (Some cells)) r h) rs.
Proof.
  unfold placed. intros H. eapply Forall_impl; [exact H |].
  intros r' Hr'. now apply ship_cells_alter.
Qed.

Lemma shoot_scan_spec (i : nat) (target : string) (rs : list ref) (e : t) :
  placed (store e) rs ->
  shoot_scan i target rs e = (Returns tt, scanned i target rs e).
Proof.
  unfold scanned. induction rs as [| r rs IH]; intros Hp; simpl; [reflexivity |].
  apply placed_cons in Hp as [(s & cells & Hs & Hl) Hp].
  unfold bind at 1, deref. rewrite Hs.
  unfold ship_has, ship_cells at 1. rewrite Hs, Hl.
  destruct (py_in target cells) eqn:E.
  - unfold hit, ship_cells. rewrite Hs, Hl. reflexivity.
  - apply IH, Hp.
Qed.

Lemma all_sunk_spec (rs : list ref) (e : t) :
  placed (store e) rs ->
  all_sunk rs e = (Returns (forallb (ship_sunk (store e)) rs), e).
Proof.
  induction rs as [| r rs IH]; intros Hp; simpl; [reflexivity |].
  apply placed_cons in Hp as [(s & cells & Hs & Hl) Hp].
  unfold bind at 1, deref. rewrite Hs.
  unfold ship_sunk at 1, ship_cells. rewrite Hs, Hl.
  destruct (length cells =? 0)%nat; [apply IH, Hp | reflexivity].
Qed.

Lemma py_pos_alter {A : Type} (f : A -> A) (n : nat) (l : list A) (i : Z) :
  py_pos (alter f n l) i = py_pos l i.
Proof. unfold py_pos. now rewrite length_alter. Qed.

Lemma ships_alter (f : PlayerState.t -> PlayerState.t) (i j : nat)
      (ps : list PlayerState.t) (o : PlayerState.t) :
  (forall p, PlayerState.ships (f p) = PlayerState.ships p) ->
  ps !! j = Some o ->
  exists o', alter f i ps !! j = Some o' /\ PlayerState.ships o' = PlayerState.ships o.
Proof.
  intros Hf Ho. destruct (decide (i = j)) as [-> | Hne].
  - rewrite list_lookup_alter_eq, Ho. simpl. eauto.
  - rewrite list_lookup_alter_ne by exact Hne. eauto.
Qed.

Lemma bind_returns {A B : Type} (m : M A) (k : A -> M B) (e e' : t) (x : A) :
  m e = (Returns x, e') -> bind m k e = k x e'.
Proof. intros H. unfold bind. now rewrite H. Qed.

Lemma bind_raises {A B : Type} (m : M A) (k : A -> M B) (e e' : t) (x : exn) :
  m e = (Raises x, e') -> bind m k e = (Raises x, e').
Proof. intros H. unfold bind. now rewrite H. Qed.

Lemma bind_dangling {A B : Type} (m : M A) (k : A -> M B) (e e' : t) :
  m e = (Dangling, e') -> bind m k e = (Dangling, e').
Proof. intros H. unfold bind. now rewrite H. Qed.

Lemma position_returns {A : Type} (l : list A) (i : Z) (n : nat) (e : t) :
  py_pos l i = Some n -> position l i e = (Returns n, e).
Proof. intros H. unfold position. now rewrite H. Qed.

Lemma advance_turn_spec (e : t) : advance_turn e = (Returns tt, advanced e).
Proof.
  unfold advance_turn, advanced, phase_of, active_index, bind, gets. simpl.
  destruct (GamePhase_eqb (BattleshipGameState.phase (state e)) RUNNING); reflexivity.
Qed.

Lemma scanned_player (i j : nat) (target : string) (rs : list ref) (e : t)
      (o : PlayerState.t) :
  players_of e !! j = Some o ->
  exists o', players_of (scanned i target rs e) !! j = Some o'
             /\ PlayerState.ships o' = PlayerState.ships o.
Proof.
  intros Ho. unfold scanned. destruct (first_hit (store e) target rs) as [r |]; [| eauto].
  unfold hit. destruct (ship_cells (store e) r); [| eauto].
  unfold players_of in *. simpl.
  now apply ships_alter.
Qed.

Lemma scanned_placed (i : nat) (target : string) (rs rs' : list ref) (e : t) :
  placed (store e) rs' -> placed (store (scanned i target rs e)) rs'.
Proof.
  intros Hp. unfold scanned. destruct (first_hit (store e) target rs) as [r |]; [| exact Hp].
  unfold hit. destruct (ship_cells (store e) r); [| exact Hp].
  simpl. now apply placed_alter.
Qed.

Lemma apply_shoot_spec (e : t) (a : BattleshipAction.t) (i j : nat)
      (target : string) (rest : list string) (o : PlayerState.t) :
  BattleshipAction.location a = target :: rest ->
  py_pos (players_of e) (1 - active_index e) = Some j ->
  players_of e !! j = Some o ->
  placed (store e) (PlayerState.ships o) ->
  apply_shoot a i e =
    (Returns tt,
     settled (PlayerState.ships o)
       (scanned i target (PlayerState.ships o) (shot i target e))).
Proof.
  intros Hl Hj Ho Hp. unfold players_of, active_index in *.
  unfold apply_shoot. rewrite Hl.
  rewrite (bind_returns _ _ e e target) by reflexivity.
  rewrite (bind_returns _ _ e (shot i target e) tt) by reflexivity.
  rewrite (bind_returns _ _ _ (shot i target e) (state (shot i target e))) by reflexivity.
  rewrite (bind_returns _ _ _ (shot i target e) j)
    by (apply position_returns; simpl; rewrite py_pos_alter; exact Hj).
  destruct (ships_alter (PlayerState.append_shot target) i j _ o (fun p => eq_refl) Ho)
    as (o1 & Ho1 & Hs1).
  rewrite (bind_returns _ _ _ (shot i target e) o1)
    by (unfold player, shot, players_of; simpl; now rewrite Ho1).
  rewrite Hs1.
  rewrite (bind_returns _ _ _ _ tt
             (shoot_scan_spec i target (PlayerState.ships o) (shot i target e) Hp)).
  set (e2 := scanned i target (PlayerState.ships o) (shot i target e)).
  destruct (scanned_player i j target (PlayerState.ships o) (shot i target e) o1 Ho1)
    as (o2 & Ho2 & Hs2).
  fold e2 in Ho2.
  rewrite (bind_returns _ _ _ e2 o2) by (unfold player; unfold players_of in Ho2; now rewrite Ho2).
  rewrite Hs2, Hs1.
  assert (Hp2 : placed (store e2) (PlayerState.ships o)) by now apply scanned_placed.
  rewrite (bind_returns _ _ _ _ _ (all_sunk_spec (PlayerState.ships o) e2 Hp2)).
  unfold settled. destruct (forallb (ship_sunk (store e2)) (PlayerState.ships o)); reflexivity.
Qed.

Lemma apply_action_shoot (e : t) (a : BattleshipAction.t) (i j : nat)
      (target : string) (rest : list string) (o : PlayerState.t) :
  BattleshipAction.action_type a = SHOOT ->
  BattleshipAction.location a = target :: rest ->
  py_pos (players_of e) (active_index e) = Some i ->
  py_pos (players_of e) (1 - active_index e) = Some j ->
  players_of e !! j = Some o ->
  placed (store e) (PlayerState.ships o) ->
  apply_action a e =
    (Returns tt,
     advanced (settled (PlayerState.ships o)
                 (scanned i target (PlayerState.ships o) (shot i target e)))).
Proof.
  intros Ha Hl Hi Hj Ho Hp. unfold apply_action.
  rewrite (bind_returns _ _ e e (state e)) by reflexivity.
  rewrite (bind_returns _ _ e e i) by (apply position_returns; exact Hi).
  rewrite Ha.
  rewrite (bind_returns _ _ _ _ _ (apply_shoot_spec e a i j target rest o Hl Hj Ho Hp)).
  apply advance_turn_spec.
Qed.

(** What [shot] and [scanned] leave alone. *)
Lemma scanned_shot_frame (i : nat) (target : string) (rs : list ref) (e : t) :
  let e2 := scanned i target rs (shot i target e) in
  phase_of e2 = phase_of e /\ active_index e2 = active_index e
  /\ winner_of e2 = winner_of e.
Proof.
  unfold scanned. simpl. destruct (first_hit (store e) target rs) as [r |]; [| easy].
  unfold hit. simpl. destruct (ship_cells (store e) r); easy.
Qed.

(** The outcome of the test on the opponent's ships and of the turn's end. *)
Lemma advanced_settled (rs : list ref) (e : t) :
  let e' := advanced (settled rs e) in
  store e' = store e /\ players_of e' = players_of e /\
  (if forallb (ship_sunk (store e)) rs
   then phase_of e' = FINISHED /\ winner_of e' = Some (active_index e)
        /\ active_index e' = active_index e
   else phase_of e' = phase_of e /\ winner_of e' = winner_of e
        /\ active_index e' =
             if GamePhase_eqb (phase_of e) RUNNING then 1 - active_index e
             else active_index e).
Proof.
  unfold advanced, settled. simpl.
  destruct (forallb (ship_sunk (store e)) rs); simpl.
  - easy.
  - destruct (GamePhase_eqb (phase_of e) RUNNING); easy.
Qed.

Lemma ship_sunk_true (h : list Ship.t) (r : ref) :
  ship_sunk h r = true <-> ship_cells h r = Some [].
Proof.
  unfold ship_sunk. destruct (ship_cells h r) as [[| c cells] |]; simpl; split;
    intros H; try discriminate; reflexivity.
Qed.

Lemma locations_of_player (e : t) (j : nat) (o : PlayerState.t) :
  players_of e !! j = Some o ->
  locations_of e (state e) j = map (ship_cells (store e)) (PlayerState.ships o).
Proof.
  intros Ho. unfold locations_of, ships_of. unfold players_of in Ho. rewrite Ho.
  rewrite map_map. reflexivity.
Qed.

Lemma all_sunk_locations (h : list Ship.t) (rs : list ref) :
  forallb (ship_sunk h) rs = true <->
  Forall (fun l => l = Some []) (map (ship_cells h) rs).
Proof.
  rewrite forallb_forall, Forall_map, Forall_forall. split.
  - intros H r Hr. apply ship_sunk_true, H. now apply list_elem_of_In.
  - intros H r Hr. apply ship_sunk_true, H. now apply list_elem_of_In.
Qed.

Lemma first_hit_Some (h : list Ship.t) (target : string) (rs : list ref) (r : ref) :
  first_hit h target rs = Some r -> ship_has h target r = true.
Proof.
  induction rs as [| r' rs IH]; simpl; [discriminate |].
  destruct (ship_has h target r') eqn:E; [| exact IH].
  intros H. inversion H; subst. exact E.
Qed.

Lemma first_hit_split (h : list Ship.t) (target : string) (pre post : list ref) (r : ref) :
  (forall r', r' ∈ pre -> ship_has h target r' = false) ->
  ship_has h target r = true ->
  first_hit h target (pre ++ r :: post) = Some r.
Proof.
  induction pre as [| r' pre IH]; simpl; intros Hpre Hr.
  - now rewrite Hr.
  - rewrite (Hpre r') by apply list_elem_of_here.
    apply IH; [| exact Hr]. intros r'' Hr''. apply Hpre. now apply list_elem_of_further.
Qed.

Lemma first_hit_None (h : list Ship.t) (target : string) (rs : list ref) :
  (forall r, r ∈ rs -> ship_has h target r = false) ->
  first_hit h target rs = None.
Proof.
  induction rs as [| r rs IH]; simpl; intros H; [reflexivity |].
  rewrite (H r) by apply list_elem_of_here.
  apply IH. intros r' Hr'. apply H. now apply list_elem_of_further.
Qed.

(** The opponent's ships as a caller reads them once the shot is dealt with. *)
Lemma shoot_opponent_locations (e : t) (i j : nat) (target : string) (o : PlayerState.t) :
  players_of e !! j = Some o ->
  let e2 := scanned i target (PlayerState.ships o) (shot i target e) in
  let e' := advanced (settled (PlayerState.ships o) e2) in
  locations_of e' (state e') j = map (ship_cells (store e2)) (PlayerState.ships o).
Proof.
  intros Ho e2 e'.
  destruct (ships_alter (PlayerState.append_shot target) i j _ o (fun p => eq_refl) Ho)
    as (o1 & Ho1 & Hs1).
  destruct (scanned_player i j target (PlayerState.ships o) (shot i target e) o1 Ho1)
    as (o2 & Ho2 & Hs2).
  destruct (advanced_settled (PlayerState.ships o) e2) as (Hst & Hpl & _).
  fold e' in Hst, Hpl. fold e2 in Ho2.
  rewrite (locations_of_player e' j o2) by (now rewrite Hpl).
  now rewrite Hst, Hs2, Hs1.
Qed.

(** ** Shooting *)

(** C3.  A SHOOT action applied in phase RUNNING returns, and the phase it
    leaves is FINISHED exactly when every ship of the opponent has an empty
    location once the shot is dealt with; the winner is then the index of
    the player who shot, and that index is not flipped. *)
Theorem shoot_finishes_iff_opponent_sunk
    (e : t) (a : BattleshipAction.t) (i j : nat)
    (target : string) (rest : list string) (o : PlayerState.t) :
  phase_of e = RUNNING ->
  BattleshipAction.action_type a = SHOOT ->
  BattleshipAction.location a = target :: rest ->
  py_pos (players_of e) (active_index e) = Some i ->
  py_pos (players_of e) (1 - active_index e) = Some j ->
  players_of e !! j = Some o ->
  placed (store e) (PlayerState.ships o) ->
  let e' := after (apply_action a) e in
  fst (apply_action a e) = Returns tt /\
  (phase_of e' = FINISHED <->
   Forall (fun l => l = Some []) (locations_of e' (state e') j)) /\
  (phase_of e' = FINISHED ->
   winner_of e' = Some (active_index e) /\ active_index e' = active_index e).
Proof.
  intros Hph Ha Hl Hi Hj Ho Hp e'. subst e'. unfold after.
  rewrite (apply_action_shoot e a i j target rest o Ha Hl Hi Hj Ho Hp). simpl fst. simpl snd.
  split; [reflexivity |].
  rewrite (shoot_opponent_locations e i j target o Ho).
  set (e2 := scanned i target (PlayerState.ships o) (shot i target e)).
  destruct (scanned_shot_frame i target (PlayerState.ships o) e) as (Hph2 & Hidx2 & _).
  fold e2 in Hph2, Hidx2.
  destruct (advanced_settled (PlayerState.ships o) e2) as (_ & _ & Hout).
  rewrite <- all_sunk_locations.
  destruct (forallb (ship_sunk (store e2)) (PlayerState.ships o)).
  - destruct Hout as (H1 & H2 & H3). rewrite H1, H2, H3, Hidx2. easy.
  - destruct Hout as (H1 & _). rewrite H1, Hph2, Hph. split; [split |]; discriminate.
Qed.

Lemma shoot_finishes_iff_opponent_sunk_witness :
  let e' := after (apply_action (shoot_at "B1")) duel in
  fst (apply_action (shoot_at "B1") duel) = Returns tt /\
  (phase_of e' = FINISHED <->
   Forall (fun l => l = Some []) (locations_of e' (state e') 1)) /\
  (phase_of e' = FINISHED ->
   winner_of e' = Some (active_index duel) /\ active_index e' = active_index duel).
Proof.
  apply (shoot_finishes_iff_opponent_sunk duel (shoot_at "B1") 0 1 "B1" []
           (PlayerState.mk "Player 2" [6%nat] [] [])); try reflexivity.
  repeat constructor. exists ["B1"; "B2"]. reflexivity.
Defined.

(** C10.  In phase RUNNING, when the opponent of the active player holds no
    ship, a SHOOT action ends the game at once: the phase becomes FINISHED
    and the winner is the index of the active player. *)
Theorem shoot_at_empty_fleet_wins
    (e : t) (a : BattleshipAction.t) (i j : nat)
    (target : string) (rest : list string) (o : PlayerState.t) :
  phase_of e = RUNNING ->
  BattleshipAction.action_type a = SHOOT ->
  BattleshipAction.location a = target :: rest ->
  py_pos (players_of e) (active_index e) = Some i ->
  py_pos (players_of e) (1 - active_index e) = Some j ->
  players_of e !! j = Some o ->
  PlayerState.ships o = [] ->
  let e' := after (apply_action a) e in
  fst (apply_action a e) = Returns tt /\
  phase_of e' = FINISHED /\ winner_of e' = Some (active_index e).
Proof.
  intros Hph Ha Hl Hi Hj Ho Hs e'. subst e'. unfold after.
  destruct o as [nm rs sh ss]. simpl in Hs. subst rs.
  set (o := PlayerState.mk nm [] sh ss) in *.
  assert (Hp : placed (store e) (PlayerState.ships o)) by constructor.
  rewrite (apply_action_shoot e a i j target rest o Ha Hl Hi Hj Ho Hp). simpl fst. simpl snd.
  split; [reflexivity |].
  destruct (scanned_shot_frame i target (PlayerState.ships o) e) as (_ & Hidx2 & _).
  destruct (advanced_settled (PlayerState.ships o)
              (scanned i target (PlayerState.ships o) (shot i target e)))
    as (_ & _ & Hout).
  simpl in Hout, Hidx2.
  destruct Hout as (H1 & H2 & _). rewrite H1, H2, Hidx2. easy.
Qed.

Lemma shoot_at_empty_fleet_wins_witness :
  let e' := after (apply_action (shoot_at "C3")) no_ships in
  fst (apply_action (shoot_at "C3") no_ships) = Returns tt /\
  phase_of e' = FINISHED /\ winner_of e' = Some (active_index no_ships).
Proof.
  apply (shoot_at_empty_fleet_wins no_ships (shoot_at "C3") 0 1 "C3" []
           (PlayerState.mk "Player 2" [] [] [])); reflexivity.
Defined.

Lemma ship_has_cells (h : list Ship.t) (target : string) (r : ref) :
  ship_has h target r = true ->
  exists cells, ship_cells h r = Some cells /\ py_in target cells = true.
Proof.
  unfold ship_has. destruct (ship_cells h r) as [cells |]; [eauto | discriminate].
Qed.

(** The shooter and the store once the loop is over. *)
Lemma scanned_hit (e : t) (i : nat) (target : string) (rs : list ref)
      (p : PlayerState.t) (r : ref) (cells : list string) :
  players_of e !! i = Some p ->
  first_hit (store e) target rs = Some r ->
  ship_cells (store e) r = Some cells ->
  let e2 := scanned i target rs (shot i target e) in
  players_of e2 !! i
    = Some (PlayerState.append_successful_shot target (PlayerState.append_shot target p))
  /\ store e2 = alter (Ship.set_location (Some (py_remove target cells))) r (store e).
Proof.
  intros Hp Hf Hc. unfold scanned. simpl. rewrite Hf. unfold hit. simpl. rewrite Hc.
  unfold shot, players_of in *. simpl. rewrite !list_lookup_alter_eq, Hp. easy.
Qed.

Lemma scanned_miss (e : t) (i : nat) (target : string) (rs : list ref)
      (p : PlayerState.t) :
  players_of e !! i = Some p ->
  first_hit (store e) target rs = None ->
  let e2 := scanned i target rs (shot i target e) in
  players_of e2 !! i = Some (PlayerState.append_shot target p)
  /\ store e2 = store e.
Proof.
  intros Hp Hf. unfold scanned. simpl. rewrite Hf.
  unfold shot, players_of in *. simpl. rewrite list_lookup_alter_eq, Hp. easy.
Qed.

(** C4, as the code has it.  A SHOOT action at the cell [target] applied in
    phase RUNNING returns and appends [target] to the shots of the active
    player.  The ships of the opponent are gone through in the order of the
    opponent's own list.  If the first ship of that list that holds [target]
    is [r] (no ship before it in the list holds the cell), [target] is
    appended to the successful shots, the first [target] of the location of
    [r] is taken out, and nothing else in the store changes.  If no ship of
    the opponent holds [target], the successful shots and the store stay as
    they were. *)
Theorem shoot_bookkeeping
    (e : t) (a : BattleshipAction.t) (i j : nat)
    (target : string) (rest : list string) (p o : PlayerState.t) :
  phase_of e = RUNNING ->
  BattleshipAction.action_type a = SHOOT ->
  BattleshipAction.location a = target :: rest ->
  py_pos (players_of e) (active_index e) = Some i ->
  py_pos (players_of e) (1 - active_index e) = Some j ->
  players_of e !! i = Some p ->
  players_of e !! j = Some o ->
  placed (store e) (PlayerState.ships o) ->
  let e' := after (apply_action a) e in
  fst (apply_action a e) = Returns tt /\
  exists p',
    players_of e' !! i = Some p' /\
    PlayerState.shots p' = (PlayerState.shots p ++ [target])%list /\
    (forall pre r post s before after,
        PlayerState.ships o = (pre ++ r :: post)%list ->
        (forall r' cells', r' ∈ pre -> ship_cells (store e) r' = Some cells' ->
                           target ∉ cells') ->
        store e !! r = Some s ->
        Ship.location s = Some (before ++ target :: after)%list ->
        target ∉ before ->
        PlayerState.successful_shots p' = (PlayerState.successful_shots p ++ [target])%list
        /\ store e'
           = <[r := Ship.mk (Ship.name s) (Ship.length s) (Some (before ++ after)%list)]>
               (store e)) /\
    ((forall r cells, r ∈ PlayerState.ships o -> ship_cells (store e) r = Some cells ->
                      target ∉ cells) ->
     PlayerState.successful_shots p' = PlayerState.successful_shots p
     /\ store e' = store e).
Proof.
  intros Hph Ha Hl Hi Hj Hpi Ho Hp e'. subst e'. unfold after.
  rewrite (apply_action_shoot e a i j target rest o Ha Hl Hi Hj Ho Hp). simpl fst. simpl snd.
  split; [reflexivity |].
  set (e2 := scanned i target (PlayerState.ships o) (shot i target e)).
  destruct (advanced_settled (PlayerState.ships o) e2) as (Hst & Hpl & _).
  rewrite Hst, Hpl.
  assert (Hmiss : forall rs : list nat,
             (forall r cells, r ∈ rs -> ship_cells (store e) r = Some cells ->
                              target ∉ cells) ->
             forall r, r ∈ rs -> ship_has (store e) target r = false).
  { intros rs H r Hr. unfold ship_has.
    destruct (ship_cells (store e) r) as [cells |] eqn:Hc; [| reflexivity].
    apply py_in_not_elem_of. now apply (H r cells). }
  destruct (first_hit (store e) target (PlayerState.ships o)) as [r0 |] eqn:Hf.
  - destruct (ship_has_cells _ _ _ (first_hit_Some _ _ _ _ Hf)) as (cells0 & Hc0 & Hin0).
    destruct (scanned_hit e i target _ p r0 cells0 Hpi Hf Hc0) as (Hp2 & Hs2).
    fold e2 in Hp2, Hs2. eexists. split; [exact Hp2 |]. split; [reflexivity |]. split.
    + intros pre r post s before after Hsplit Hpre Hs Hloc Hbefore.
      assert (Hc : ship_cells (store e) r = Some (before ++ target :: after)%list)
        by (unfold ship_cells; now rewrite Hs).
      assert (Hr : first_hit (store e) target (PlayerState.ships o) = Some r).
      { rewrite Hsplit. apply first_hit_split; [now apply Hmiss |].
        unfold ship_has. rewrite Hc. apply py_in_elem_of.
        apply elem_of_app. right. apply list_elem_of_here. }
      rewrite Hf in Hr. inversion Hr; subst r0.
      rewrite Hc0 in Hc. inversion Hc; subst cells0.
      split; [reflexivity |].
      rewrite Hs2, (alter_insert _ _ _ s Hs). unfold Ship.set_location.
      now rewrite py_remove_first.
    + intros Hnone. rewrite (first_hit_None _ _ _ (Hmiss _ Hnone)) in Hf. discriminate.
  - destruct (scanned_miss e i target _ p Hpi Hf) as (Hp2 & Hs2).
    fold e2 in Hp2, Hs2. eexists. split; [exact Hp2 |]. split; [reflexivity |]. split.
    + intros pre r post s before after Hsplit Hpre Hs Hloc Hbefore.
      rewrite Hsplit, first_hit_split in Hf; [discriminate | now apply Hmiss |].
      unfold ship_has, ship_cells. rewrite Hs, Hloc. apply py_in_elem_of.
      apply elem_of_app. right. apply list_elem_of_here.
    + intros _. split; [reflexivity | exact Hs2].
Qed.

(** A hit and a miss in [duel]: the shot at B1 takes B1 out of the second
    player's Destroyer, the shot at C3 changes no ship. *)
Lemma shoot_bookkeeping_witness :
  (let e' := after (apply_action (shoot_at "B1")) duel in
   fst (apply_action (shoot_at "B1") duel) = Returns tt /\
   exists p', players_of e' !! 0%nat = Some p' /\
     PlayerState.shots p' = ["B1"] /\ PlayerState.successful_shots p' = ["B1"] /\
     store e' = <[6%nat := Ship.mk "Destroyer" 2 (Some ["B2"])]> (store duel)) /\
  (let e' := after (apply_action (shoot_at "C3")) duel in
   fst (apply_action (shoot_at "C3") duel) = Returns tt /\
   exists p', players_of e' !! 0%nat = Some p' /\
     PlayerState.shots p' = ["C3"] /\ PlayerState.successful_shots p' = [] /\
     store e' = store duel).
Proof.
  assert (Hplaced : placed (store duel) [6%nat])
    by (repeat constructor; exists ["B1"; "B2"]; reflexivity).
  split.
  - destruct (shoot_bookkeeping duel (shoot_at "B1") 0 1 "B1" []
                (PlayerState.mk "Player 1" [5%nat] [] [])
                (PlayerState.mk "Player 2" [6%nat] [] [])
                eq_refl eq_refl eq_refl eq_refl eq_refl eq_refl eq_refl Hplaced)
      as (Hret & p' & Hp' & Hshots & Hhit & _).
    split; [exact Hret |]. exists p'. split; [exact Hp' |]. split; [exact Hshots |].
    apply (Hhit [] 6%nat [] (Ship.mk "Destroyer" 2 (Some ["B1"; "B2"])) [] ["B2"]).
    + reflexivity.
    + intros r' cells' Hr'. now apply elem_of_nil in Hr'.
    + reflexivity.
    + reflexivity.
    + apply not_elem_of_nil.
  - destruct (shoot_bookkeeping duel (shoot_at "C3") 0 1 "C3" []
                (PlayerState.mk "Player 1" [5%nat] [] [])
                (PlayerState.mk "Player 2" [6%nat] [] [])
                eq_refl eq_refl eq_refl eq_refl eq_refl eq_refl eq_refl Hplaced)
      as (Hret & p' & Hp' & Hshots & _ & Hmiss).
    split; [exact Hret |]. exists p'. split; [exact Hp' |]. split; [exact Hshots |].
    apply Hmiss. intros r cells Hr Hc.
    apply list_elem_of_singleton in Hr. subst r. inversion Hc; subst cells.
    intros Hin. apply elem_of_cons in Hin as [Hin | Hin]; [discriminate |].
    apply list_elem_of_singleton in Hin. discriminate.
Defined.

(** C4, as the claim has it, fails: the order is not the roster's.  In
    [crossed] the second player holds the Destroyer and then the Carrier, both
    on A1.  Of the two, the Carrier is the first in the order of the roster,
    but the shot at A1 leaves the Carrier its cell and takes it from the
    Destroyer, the first of the player's own list. *)
Lemma shoot_hits_first_of_list_not_of_roster :
  let e' := after (apply_action (shoot_at "A1")) crossed in
  phase_of crossed = RUNNING /\
  fst (apply_action (shoot_at "A1") crossed) = Returns tt /\
  roster_order crossed [4%nat; 0%nat] = [0%nat; 4%nat] /\
  first_hit (store crossed) "A1" (roster_order crossed [4%nat; 0%nat]) = Some 0%nat /\
  ship_cells (store crossed) 0 = Some ["A1"] /\
  ship_cells (store e') 0 = Some ["A1"] /\
  ship_cells (store crossed) 4 = Some ["A1"] /\
  ship_cells (store e') 4 = Some [].
Proof. vm_compute. repeat split. Qed.

(** ** Lemmas on the SET_SHIP branch *)

(** The generator of the lookup never touches the engine. *)
Lemma next_named_cases (nm : option string) (rs : list ref) (e : t) :
  (exists r s, next_named nm rs e = (Returns r, e) /\ r ∈ rs
               /\ store e !! r = Some s /\ name_is nm s = true)
  \/ next_named nm rs e = (Raises StopIteration, e)
  \/ next_named nm rs e = (Dangling, e).
Proof.
  induction rs as [| r rs IH]; simpl; [right; left; reflexivity |].
  unfold bind, deref. destruct (store e !! r) as [s |] eqn:Hs; [| right; right; reflexivity].
  destruct (name_is nm s) eqn:Hn.
  - left. exists r, s.
    split; [reflexivity |]. split; [apply list_elem_of_here |]. now split.
  - destruct IH as [(r' & s' & H1 & H2 & H3 & H4) | H]; [| right; exact H].
    left. exists r', s'.
    split; [exact H1 |]. split; [now apply list_elem_of_further |]. now split.
Qed.

Lemma next_named_unknown (nm : option string) (rs : list ref) (e : t) :
  forallb (stored (store e)) rs = true ->
  existsb (named (store e) nm) rs = false ->
  next_named nm rs e = (Raises StopIteration, e).
Proof.
  induction rs as [| r rs IH]; simpl; intros Hin Hno; [reflexivity |].
  apply andb_true_iff in Hin as [Hr Hrs]. apply orb_false_iff in Hno as [Hn Hno].
  unfold stored in Hr. unfold named in Hn. unfold bind, deref.
  destruct (store e !! r) as [s |]; [| discriminate].
  rewrite Hn. now apply IH.
Qed.

Lemma next_named_known (nm : option string) (rs : list ref) (e : t) :
  forallb (stored (store e)) rs = true ->
  existsb (named (store e) nm) rs = true ->
  exists r, next_named nm rs e = (Returns r, e) /\ r ∈ rs.
Proof.
  induction rs as [| r rs IH]; simpl; intros Hin Hex; [discriminate |].
  apply andb_true_iff in Hin as [Hr Hrs].
  unfold stored in Hr. unfold named in Hex at 1. unfold bind, deref.
  destruct (store e !! r) as [s |]; [| discriminate].
  destruct (name_is nm s).
  - exists r. split; [reflexivity | apply list_elem_of_here].
  - destruct (IH Hrs Hex) as (r' & H1 & H2). exists r'. split; [exact H1 |].
    now apply list_elem_of_further.
Qed.

Lemma apply_set_ship_spec (e : t) (a : BattleshipAction.t) (i : nat) (r : ref) :
  is_Some (players_of e !! i) ->
  next_named (BattleshipAction.ship_name a) (ships e) e = (Returns r, e) ->
  apply_set_ship a i e
  = (Returns tt, started i (put i r (BattleshipAction.location a) e)).
Proof.
  intros [p Hp] Hn. unfold apply_set_ship.
  rewrite (bind_returns _ _ e e (ships e)) by reflexivity.
  rewrite (bind_returns _ _ e e r Hn).
  set (e1 := put i r (BattleshipAction.location a) e).
  rewrite (bind_returns _ _ e _ tt) by reflexivity.
  rewrite (bind_returns _ _ _ e1 tt) by reflexivity.
  assert (Hp1 : players_of e1 !! i = Some (PlayerState.append_ship r p)).
  { unfold e1, put, players_of in *. simpl. now rewrite list_lookup_alter_eq, Hp. }
  rewrite (bind_returns _ _ e1 e1 (PlayerState.append_ship r p))
    by (unfold player; unfold players_of in Hp1; now rewrite Hp1).
  rewrite (bind_returns _ _ e1 e1 (state e1)) by reflexivity.
  unfold started, game_starts. rewrite Hp1.
  change (ships e1) with (ships e). unfold players_of.
  destruct ((length (PlayerState.ships (PlayerState.append_ship r p)) =? length (ships e))%nat
            && all_placed (length (ships e)) (BattleshipGameState.players (state e1)));
    reflexivity.
Qed.

(** The three ways a SET_SHIP action can go once the active player is found. *)
Lemma apply_action_set_ship (e : t) (a : BattleshipAction.t) (i : nat) :
  BattleshipAction.action_type a = SET_SHIP ->
  py_pos (players_of e) (active_index e) = Some i ->
  (exists r, r ∈ ships e /\
             apply_action a e
             = (Returns tt, advanced (started i (put i r (BattleshipAction.location a) e))))
  \/ apply_action a e = (Raises StopIteration, e)
  \/ apply_action a e = (Dangling, e).
Proof.
  intros Ha Hi. unfold apply_action.
  rewrite (bind_returns _ _ e e (state e)) by reflexivity.
  rewrite (bind_returns _ _ e e i) by (apply position_returns; exact Hi).
  rewrite Ha.
  destruct (next_named_cases (BattleshipAction.ship_name a) (ships e) e)
    as [(r & s & Hn & Hr & _) | [Hn | Hn]].
  - left. exists r. split; [exact Hr |].
    rewrite (bind_returns _ _ _ _ _
               (apply_set_ship_spec e a i r (py_pos_lookup _ _ _ Hi) Hn)).
    apply advance_turn_spec.
  - right; left. apply bind_raises. unfold apply_set_ship.
    rewrite (bind_returns _ _ e e (ships e)) by reflexivity.
    now apply bind_raises.
  - right; right. apply bind_dangling. unfold apply_set_ship.
    rewrite (bind_returns _ _ e e (ships e)) by reflexivity.
    now apply bind_dangling.
Qed.

(** ** Placing ships *)

(** C8, as the code has it.  A SET_SHIP action whose name no roster ship
    bears fails, it does not go through in silence: the lookup of the ship
    raises [StopIteration] before anything is changed.  There is no
    [UnknownShipError] in the source. *)
Theorem set_ship_unknown_raises_StopIteration
    (e : t) (a : BattleshipAction.t) (i : nat) :
  BattleshipAction.action_type a = SET_SHIP ->
  py_pos (players_of e) (active_index e) = Some i ->
  roster_in_store e = true ->
  known_ship e (BattleshipAction.ship_name a) = false ->
  apply_action a e = (Raises StopIteration, e).
Proof.
  intros Ha Hi Hin Hno. unfold apply_action.
  rewrite (bind_returns _ _ e e (state e)) by reflexivity.
  rewrite (bind_returns _ _ e e i) by (apply position_returns; exact Hi).
  rewrite Ha. apply bind_raises. unfold apply_set_ship.
  rewrite (bind_returns _ _ e e (ships e)) by reflexivity.
  apply bind_raises. now apply next_named_unknown.
Qed.

Lemma set_ship_unknown_raises_StopIteration_witness :
  apply_action rowing_boat init = (Raises StopIteration, init).
Proof.
  apply (set_ship_unknown_raises_StopIteration init rowing_boat 0); reflexivity.
Defined.

(** C8, as the claim has it, fails: the name of [rowing_boat] is not in the
    roster, and the exception raised is not an [UnknownShipError]. *)
Lemma set_ship_unknown_not_UnknownShipError :
  BattleshipAction.action_type rowing_boat = SET_SHIP /\
  known_ship init (BattleshipAction.ship_name rowing_boat) = false /\
  ~ fails_with "UnknownShipError" (fst (apply_action rowing_boat init)).
Proof.
  split; [reflexivity |]. split; [reflexivity |].
  intros (x & Hx & Hname). vm_compute in Hx. inversion Hx; subst x.
  vm_compute in Hname. discriminate.
Qed.

Lemma started_put_frame (i : nat) (r : ref) (loc : list string) (e : t) :
  let e1 := started i (put i r loc e) in
  ships e1 = ships e /\ active_index e1 = active_index e
  /\ winner_of e1 = winner_of e
  /\ players_of e1 = alter (PlayerState.append_ship r) i (players_of e)
  /\ phase_of e1 = if game_starts i (put i r loc e) then RUNNING else phase_of e.
Proof.
  unfold started. destruct (game_starts i (put i r loc e)); easy.
Qed.

Lemma advanced_frame (e : t) :
  ships (advanced e) = ships e /\ store (advanced e) = store e
  /\ players_of (advanced e) = players_of e /\ phase_of (advanced e) = phase_of e
  /\ winner_of (advanced e) = winner_of e.
Proof. unfold advanced. destruct (GamePhase_eqb (phase_of e) RUNNING); easy. Qed.

Lemma advanced_index (e : t) :
  active_index (advanced e)
  = if GamePhase_eqb (phase_of e) RUNNING then 1 - active_index e else active_index e.
Proof. unfold advanced. destruct (GamePhase_eqb (phase_of e) RUNNING); reflexivity. Qed.

Lemma game_starts_fully_placed (i : nat) (e : t) :
  is_Some (players_of e !! i) -> game_starts i e = fully_placed e.
Proof.
  intros [p Hp]. unfold game_starts, fully_placed. rewrite Hp.
  destruct (all_placed (length (ships e)) (players_of e)) eqn:E;
    [| apply andb_false_r].
  rewrite andb_true_r. unfold all_placed in E. rewrite forallb_forall in E.
  apply E. apply list_elem_of_In. eapply list_elem_of_lookup_2. exact Hp.
Qed.

(** C1, as the code has it.  A SET_SHIP action naming a roster ship returns.
    If every player then holds as many ships as the roster has, the phase
    is RUNNING and the active index is flipped: the turn's end is tested
    once the phase is RUNNING.  If not, and the phase was SETUP, the phase
    stays SETUP and the active index stays. *)
Theorem final_placement_starts_game_and_flips
    (e : t) (a : BattleshipAction.t) (i : nat) :
  BattleshipAction.action_type a = SET_SHIP ->
  py_pos (players_of e) (active_index e) = Some i ->
  roster_in_store e = true ->
  known_ship e (BattleshipAction.ship_name a) = true ->
  let e' := after (apply_action a) e in
  fst (apply_action a e) = Returns tt /\
  (fully_placed e' = true ->
   phase_of e' = RUNNING /\ active_index e' = 1 - active_index e) /\
  (fully_placed e' = false -> phase_of e = SETUP ->
   phase_of e' = SETUP /\ active_index e' = active_index e).
Proof.
  intros Ha Hi Hin Hk e'. subst e'. unfold after.
  destruct (next_named_known _ _ _ Hin Hk) as (r & Hn & _).
  assert (Hrun : apply_action a e
                 = (Returns tt, advanced (started i (put i r (BattleshipAction.location a) e)))).
  { unfold apply_action.
    rewrite (bind_returns _ _ e e (state e)) by reflexivity.
    rewrite (bind_returns _ _ e e i) by (apply position_returns; exact Hi).
    rewrite Ha.
    rewrite (bind_returns _ _ _ _ _
               (apply_set_ship_spec e a i r (py_pos_lookup _ _ _ Hi) Hn)).
    apply advance_turn_spec. }
  rewrite Hrun. simpl fst. simpl snd. split; [reflexivity |].
  set (e0 := put i r (BattleshipAction.location a) e).
  destruct (started_put_frame i r (BattleshipAction.location a) e)
    as (Hsh & Hidx & _ & Hpl & Hph).
  fold e0 in Hsh, Hidx, Hpl, Hph.
  destruct (advanced_frame (started i e0)) as (Hsh' & _ & Hpl' & Hph' & _).
  assert (Hfull : fully_placed (advanced (started i e0)) = game_starts i e0).
  { rewrite game_starts_fully_placed.
    - unfold fully_placed. now rewrite Hsh', Hpl', Hsh, Hpl.
    - unfold e0, put, players_of. simpl. rewrite list_lookup_alter_eq.
      destruct (py_pos_lookup _ _ _ Hi) as [p Hp]. unfold players_of in Hp.
      rewrite Hp. simpl. eauto. }
  rewrite Hfull, Hph', advanced_index, Hph, Hidx.
  destruct (game_starts i e0); split; intros H; try discriminate.
  - easy.
  - intros Hs. rewrite Hs. easy.
Qed.

Lemma final_placement_starts_game_and_flips_witness :
  let e' := after (apply_action destroyer_J1) one_to_place in
  fst (apply_action destroyer_J1 one_to_place) = Returns tt /\
  (fully_placed e' = true ->
   phase_of e' = RUNNING /\ active_index e' = 1 - active_index one_to_place) /\
  (fully_placed e' = false -> phase_of one_to_place = SETUP ->
   phase_of e' = SETUP /\ active_index e' = active_index one_to_place).
Proof.
  apply (final_placement_starts_game_and_flips one_to_place destroyer_J1 0); reflexivity.
Defined.

(** C1, as the claim has it, fails: the Destroyer is the last ship to place,
    both players hold five ships after it and the phase is RUNNING, but the
    active index has moved from 0 to 1. *)
Lemma final_placement_flips_active_index :
  let e' := after (apply_action destroyer_J1) one_to_place in
  fst (apply_action destroyer_J1 one_to_place) = Returns tt /\
  map (fun p => length (PlayerState.ships p)) (players_of e') = [5%nat; 5%nat] /\
  length (ships e') = 5%nat /\
  active_index one_to_place = 0 /\
  ~ (phase_of e' = RUNNING /\ active_index e' = 0).
Proof.
  vm_compute. repeat split; try reflexivity.
  intros [_ H]. discriminate.
Qed.

(** ** Games that begin with a new engine *)

Lemma init_first_player_only : first_player_only init.
Proof.
  split; [reflexivity |]. split; [discriminate |].
  eexists _, _. split; reflexivity.
Qed.

(** A shot without a cell raises before anything is changed. *)
Lemma apply_action_shoot_nowhere (e : t) (a : BattleshipAction.t) (i : nat) :
  BattleshipAction.action_type a = SHOOT ->
  BattleshipAction.location a = [] ->
  py_pos (players_of e) (active_index e) = Some i ->
  apply_action a e = (Raises IndexError, e).
Proof.
  intros Ha Hl Hi. unfold apply_action.
  rewrite (bind_returns _ _ e e (state e)) by reflexivity.
  rewrite (bind_returns _ _ e e i) by (apply position_returns; exact Hi).
  rewrite Ha. apply bind_raises. unfold apply_shoot. rewrite Hl. reflexivity.
Qed.

(** One call of [apply_action] in a state where only the first player can
    move: a placement changes neither the phase nor the winner, a shot ends
    the game with the first player as the winner, and a call that raises
    changes nothing. *)
Lemma apply_action_first_player_only (e : t) (a : BattleshipAction.t) :
  first_player_only e ->
  phase_of e <> RUNNING ->
  let e' := after (apply_action a) e in
  first_player_only e' /\
  (BattleshipAction.action_type a = SET_SHIP ->
   phase_of e' = phase_of e /\ winner_of e' = winner_of e) /\
  (BattleshipAction.action_type a = SHOOT ->
   (phase_of e' = phase_of e /\ winner_of e' = winner_of e)
   \/ (phase_of e' = FINISHED /\ winner_of e' = Some 0)).
Proof.
  intros (Hidx & Hros & p0 & p1 & Hpl & Hp1) Hph e'. subst e'. unfold after.
  assert (Hi : py_pos (players_of e) (active_index e) = Some 0%nat)
    by (rewrite Hpl, Hidx; reflexivity).
  assert (Hself : first_player_only e) by (split; [| split]; eauto).
  destruct (BattleshipAction.action_type a) eqn:Ha.
  - (* SET_SHIP *)
    assert (Hgoal : forall e', (e' = e \/ exists r,
                e' = advanced (started 0 (put 0 r (BattleshipAction.location a) e))) ->
              first_player_only e' /\ phase_of e' = phase_of e /\ winner_of e' = winner_of e).
    { intros e' [-> | (r & ->)]; [easy |].
      destruct e as [g rs h [idx ph w ps]].
      unfold players_of, active_index, phase_of, winner_of in *. simpl in *. subst ps idx.
      destruct p1 as [n1 s1 sh1 ss1]. simpl in Hp1. subst s1.
      assert (Hg : game_starts 0 (put 0 r (BattleshipAction.location a)
                     (mk g rs h (BattleshipGameState.mk 0 ph w
                        [p0; PlayerState.mk n1 [] sh1 ss1]))) = false).
      { unfold game_starts, put, players_of, all_placed. simpl.
        destruct rs; [congruence |]. simpl. now rewrite !andb_false_r. }
      unfold started. rewrite Hg. unfold advanced, phase_of. simpl.
      destruct ph; simpl; try congruence;
        (split; [| easy]); (split; [reflexivity |]); (split; [assumption |]);
        eexists _, _; split; reflexivity. }
    destruct (apply_action_set_ship e a 0 Ha Hi) as [(r & _ & Hr) | [Hr | Hr]];
      rewrite Hr; simpl snd.
    + destruct (Hgoal _ (or_intror (ex_intro _ r eq_refl))) as (H1 & H2 & H3).
      split; [exact H1 |]. split; [easy | discriminate].
    + split; [exact Hself |]. split; [easy | discriminate].
    + split; [exact Hself |]. split; [easy | discriminate].
  - (* SHOOT *)
    destruct (BattleshipAction.location a) as [| target rest] eqn:Hl.
    + rewrite (apply_action_shoot_nowhere e a 0 Ha Hl Hi). simpl snd.
      split; [exact Hself |]. split; [discriminate | left; easy].
    + assert (Hj : py_pos (players_of e) (1 - active_index e) = Some 1%nat)
        by (rewrite Hpl, Hidx; reflexivity).
      assert (Ho : players_of e !! 1%nat = Some p1) by (rewrite Hpl; reflexivity).
      assert (Hp : placed (store e) (PlayerState.ships p1)) by (rewrite Hp1; constructor).
      rewrite (apply_action_shoot e a 0 1 target rest p1 Ha Hl Hi Hj Ho Hp). simpl snd.
      rewrite Hp1.
      destruct e as [g rs h [idx ph w ps]].
      unfold players_of, active_index, phase_of, winner_of in *. simpl in *. subst ps idx.
      split; [| split; [discriminate | right; easy]].
      split; [reflexivity |]. split; [assumption |].
      eexists _, _. split; [reflexivity | exact Hp1].
Qed.

(** What holds of every state [apply_action] leads to from a new engine. *)
Lemma reachable_first_player_only (e : t) :
  reachable e ->
  first_player_only e /\ phase_of e <> RUNNING
  /\ (winner_of e <> None <-> phase_of e = FINISHED).
Proof.
  induction 1 as [| e a Hr (Hf & Hph & Hw)].
  - split; [apply init_first_player_only |]. split; [discriminate |].
    split; [intros H; now elim H | discriminate].
  - destruct (apply_action_first_player_only e a Hf Hph) as (Hf' & Hset & Hshoot).
    split; [exact Hf' |].
    destruct (BattleshipAction.action_type a).
    + destruct (Hset eq_refl) as [H1 H2]. rewrite H1, H2. easy.
    + destruct (Hshoot eq_refl) as [[H1 H2] | [H1 H2]]; rewrite H1, H2; [easy |].
      split; [discriminate |]. split; [reflexivity | discriminate].
Qed.

(** C5.  In every state reached from a new engine by calls of
    [apply_action], the winner is set exactly when the phase is FINISHED. *)
Theorem winner_set_iff_finished (e : t) :
  reachable e -> (winner_of e <> None <-> phase_of e = FINISHED).
Proof. intros H. now apply reachable_first_player_only. Qed.

Lemma winner_set_iff_finished_witness :
  winner_of (after (apply_action (shoot_at "A1")) carrier_placed) <> None
  <-> phase_of (after (apply_action (shoot_at "A1")) carrier_placed) = FINISHED.
Proof.
  apply (winner_set_iff_finished (after (apply_action (shoot_at "A1")) carrier_placed)).
  apply reachable_apply. apply reachable_apply. apply reachable_init.
Defined.

(** ** Lemmas on [get_list_action] *)

Lemma py_pos_nat {A : Type} (l : list A) (n : nat) :
  (n < length l)%nat -> py_pos l (Z.of_nat n) = Some n.
Proof.
  intros H. unfold py_pos.
  replace (0 <=? Z.of_nat n) with true by (symmetry; apply Z.leb_le; lia).
  replace (Z.of_nat n <? Z.of_nat (length l)) with true by (symmetry; apply Z.ltb_lt; lia).
  simpl. now rewrite Nat2Z.id.
Qed.

(** A loop whose body leaves the list alone or raises [TypeError], and never
    touches the engine, does the same. *)
Lemma for_each_keeps_or_raises {A : Type}
      (body : A -> list BattleshipAction.t -> M (list BattleshipAction.t))
      (l : list A) :
  (forall x actions e, body x actions e = (Returns actions, e)
                       \/ body x actions e = (Raises TypeError, e)) ->
  forall actions e, for_each body l actions e = (Returns actions, e)
                    \/ for_each body l actions e = (Raises TypeError, e).
Proof.
  intros Hbody. induction l as [| x l IH]; intros actions e; simpl; [now left |].
  destruct (Hbody x actions e) as [H | H].
  - rewrite (bind_returns _ _ _ _ _ H). apply IH.
  - right. now apply bind_raises.
Qed.

Lemma for_each_raises {A : Type}
      (body : A -> list BattleshipAction.t -> M (list BattleshipAction.t))
      (l : list A) (x : A) :
  (forall y actions e, body y actions e = (Returns actions, e)
                       \/ body y actions e = (Raises TypeError, e)) ->
  x ∈ l ->
  (forall actions e, body x actions e = (Raises TypeError, e)) ->
  forall actions e, for_each body l actions e = (Raises TypeError, e).
Proof.
  intros Hbody Hx Hraise. induction l as [| y l IH]; intros actions e;
    [now apply elem_of_nil in Hx |].
  simpl. apply elem_of_cons in Hx as [<- | Hx]; [now apply bind_raises |].
  destruct (Hbody y actions e) as [H | H].
  - rewrite (bind_returns _ _ _ _ _ H). now apply IH.
  - now apply bind_raises.
Qed.

Lemma placements_keeps_or_raises (g : Z) (s : Ship.t)
      (actions : list BattleshipAction.t) (e : t) :
  placements g s actions e = (Returns actions, e)
  \/ placements g s actions e = (Raises TypeError, e).
Proof.
  unfold placements. apply for_each_keeps_or_raises. intros i.
  apply for_each_keeps_or_raises. intros j acc e'. now right.
Qed.

Lemma targets_keeps_or_raises (g : Z) (fired : list string)
      (actions : list BattleshipAction.t) (e : t) :
  targets g fired actions e = (Returns actions, e)
  \/ targets g fired actions e = (Raises TypeError, e).
Proof.
  unfold targets. apply for_each_keeps_or_raises. intros i.
  apply for_each_keeps_or_raises. intros j acc e'.
  destruct (negb (py_in (coord i j) fired)); [now right | now left].
Qed.

(** The loops of the SETUP branch raise as soon as there is a row and a
    first column for the ship. *)
Lemma placements_raises (g : Z) (s : Ship.t) (actions : list BattleshipAction.t) (e : t) :
  0 < g -> Ship.length s <= g ->
  placements g s actions e = (Raises TypeError, e).
Proof.
  intros Hg Hlen. unfold placements.
  apply (for_each_raises _ _ 0).
  - intros i. apply for_each_keeps_or_raises. intros j acc e'. now right.
  - apply elem_of_py_range. lia.
  - apply (for_each_raises _ _ 0).
    + intros j acc e'. now right.
    + apply elem_of_py_range. lia.
    + reflexivity.
Qed.

(** The loops of the RUNNING branch raise as soon as a cell of the grid is
    not among the shots. *)
Lemma targets_raises (g : Z) (fired : list string) (row col : Z)
      (actions : list BattleshipAction.t) (e : t) :
  0 <= row < g -> 0 <= col < g -> coord row col ∉ fired ->
  targets g fired actions e = (Raises TypeError, e).
Proof.
  intros Hrow Hcol Hfresh. apply py_in_not_elem_of in Hfresh. unfold targets.
  assert (Hbody : forall i j acc e',
             (if negb (py_in (coord i j) fired)
              then action <- new_action SHOOT None [coord i j] ;; ret (acc ++ [action])%list
              else ret acc) e' = (Returns acc, e')
             \/ (if negb (py_in (coord i j) fired)
                 then action <- new_action SHOOT None [coord i j] ;; ret (acc ++ [action])%list
                 else ret acc) e' = (Raises TypeError, e')).
  { intros i j acc e'. destruct (negb (py_in (coord i j) fired)); [now right | now left]. }
  apply (for_each_raises _ _ row).
  - intros i. apply for_each_keeps_or_raises. intros j. apply Hbody.
  - now apply elem_of_py_range.
  - apply (for_each_raises _ _ col).
    + intros j. apply Hbody.
    + now apply elem_of_py_range.
    + intros acc e'. now rewrite Hfresh.
Qed.

Lemma get_list_action_setup (e : t) (i : nat) (p : PlayerState.t) (r : ref) (s : Ship.t) :
  phase_of e = SETUP ->
  py_pos (players_of e) (active_index e) = Some i ->
  players_of e !! i = Some p ->
  (length (PlayerState.ships p) < length (ships e))%nat ->
  ships e !! length (PlayerState.ships p) = Some r ->
  store e !! r = Some s ->
  get_list_action e = placements (grid_size e) s [] e.
Proof.
  intros Hph Hi Hp Hlt Hr Hs. unfold get_list_action. cbv zeta.
  rewrite (bind_returns _ _ e e (state e)) by reflexivity.
  rewrite (bind_returns _ _ e e i) by (apply position_returns; exact Hi).
  rewrite (bind_returns _ _ e e p) by (unfold player; unfold players_of in Hp; now rewrite Hp).
  unfold phase_of in Hph. rewrite Hph.
  rewrite (bind_returns _ _ e e (ships e)) by reflexivity.
  apply Nat.ltb_lt in Hlt as Hlt'. rewrite Hlt'.
  rewrite (bind_returns _ _ e e r)
    by (unfold getitem; rewrite (py_pos_nat _ _ Hlt), Hr; reflexivity).
  rewrite (bind_returns _ _ e e s) by (unfold deref; now rewrite Hs).
  now rewrite (bind_returns _ _ e e (grid_size e)) by reflexivity.
Qed.

Lemma get_list_action_all_placed (e : t) (i : nat) (p : PlayerState.t) :
  phase_of e = SETUP ->
  py_pos (players_of e) (active_index e) = Some i ->
  players_of e !! i = Some p ->
  (length (ships e) <= length (PlayerState.ships p))%nat ->
  get_list_action e = (Returns [], e).
Proof.
  intros Hph Hi Hp Hle. unfold get_list_action. cbv zeta.
  rewrite (bind_returns _ _ e e (state e)) by reflexivity.
  rewrite (bind_returns _ _ e e i) by (apply position_returns; exact Hi).
  rewrite (bind_returns _ _ e e p) by (unfold player; unfold players_of in Hp; now rewrite Hp).
  unfold phase_of in Hph. rewrite Hph.
  rewrite (bind_returns _ _ e e (ships e)) by reflexivity.
  apply Nat.ltb_ge in Hle. rewrite Hle. reflexivity.
Qed.

Lemma get_list_action_running (e : t) (i : nat) (p : PlayerState.t) :
  phase_of e = RUNNING ->
  py_pos (players_of e) (active_index e) = Some i ->
  players_of e !! i = Some p ->
  get_list_action e = targets (grid_size e) (PlayerState.shots p) [] e.
Proof.
  intros Hph Hi Hp. unfold get_list_action. cbv zeta.
  rewrite (bind_returns _ _ e e (state e)) by reflexivity.
  rewrite (bind_returns _ _ e e i) by (apply position_returns; exact Hi).
  rewrite (bind_returns _ _ e e p) by (unfold player; unfold players_of in Hp; now rewrite Hp).
  unfold phase_of in Hph. rewrite Hph.
  now rewrite (bind_returns _ _ e e (grid_size e)) by reflexivity.
Qed.

Lemma get_list_action_finished (e : t) (i : nat) (p : PlayerState.t) :
  phase_of e = FINISHED ->
  py_pos (players_of e) (active_index e) = Some i ->
  players_of e !! i = Some p ->
  get_list_action e = (Returns [], e).
Proof.
  intros Hph Hi Hp. unfold get_list_action. cbv zeta.
  rewrite (bind_returns _ _ e e (state e)) by reflexivity.
  rewrite (bind_returns _ _ e e i) by (apply position_returns; exact Hi).
  rewrite (bind_returns _ _ e e p) by (unfold player; unfold players_of in Hp; now rewrite Hp).
  unfold phase_of in Hph. rewrite Hph. reflexivity.
Qed.

(** A call of [get_list_action] that returns has built no action. *)
Lemma get_list_action_returns_empty (e : t) (actions : list BattleshipAction.t) :
  fst (get_list_action e) = Returns actions -> actions = [].
Proof.
  intros Hget.
  unfold get_list_action, bind, gets, position, player, getitem, deref, ret, raise in Hget.
  cbv zeta in Hget. simpl in Hget.
  destruct (py_pos (BattleshipGameState.players (state e))
              (BattleshipGameState.idx_player_active (state e))) as [i |];
    [| discriminate].
  destruct (BattleshipGameState.players (state e) !! i) as [p |]; [| discriminate].
  destruct (BattleshipGameState.phase (state e)).
  - destruct (length (PlayerState.ships p) <? length (ships e))%nat;
      [| now inversion Hget].
    destruct (py_pos (ships e) (Z.of_nat (length (PlayerState.ships p)))) as [n |];
      [| discriminate].
    destruct (ships e !! n) as [r |]; [| discriminate].
    destruct (store e !! r) as [s |]; [| discriminate].
    destruct (placements_keeps_or_raises (grid_size e) s [] e) as [H | H];
      rewrite H in Hget; [now inversion Hget | discriminate].
  - destruct (targets_keeps_or_raises (grid_size e) (PlayerState.shots p) [] e) as [H | H];
      rewrite H in Hget; [now inversion Hget | discriminate].
  - now inversion Hget.
Qed.

(** ** Games played by the list *)




(** Where placing ends: once the first player has placed the five ships,
    the phase is still SETUP, the second player holds none, and the list of
    actions is empty. *)
Lemma roster_placed_is_stuck :
  reachable roster_placed /\
  map (fun p => length (PlayerState.ships p)) (players_of roster_placed) = [5%nat; 0%nat] /\
  phase_of roster_placed = SETUP /\
  get_list_action roster_placed = (Returns [], roster_placed).
Proof.
  split; [| vm_compute; repeat split].
  unfold roster_placed. do 5 apply reachable_apply. apply reachable_init.
Qed.

(** ** Listing the actions *)

(** C6 fails on the code.  In phase SETUP, when the active player holds
    fewer ships than the roster has and the next roster ship fits in a row
    of the grid, [get_list_action] lists nothing: its first
    [BattleshipAction(...)] call gives the fields by position and raises
    [TypeError]. *)
Theorem setup_listing_raises_TypeError
    (e : t) (i : nat) (p : PlayerState.t) (r : ref) (s : Ship.t) :
  phase_of e = SETUP ->
  py_pos (players_of e) (active_index e) = Some i ->
  players_of e !! i = Some p ->
  (length (PlayerState.ships p) < length (ships e))%nat ->
  ships e !! length (PlayerState.ships p) = Some r ->
  store e !! r = Some s ->
  0 < grid_size e ->
  Ship.length s <= grid_size e ->
  get_list_action e = (Raises TypeError, e).
Proof.
  intros Hph Hi Hp Hlt Hr Hs Hg Hlen.
  rewrite (get_list_action_setup e i p r s Hph Hi Hp Hlt Hr Hs).
  now apply placements_raises.
Qed.

Lemma setup_listing_raises_TypeError_witness :
  get_list_action init = (Raises TypeError, init).
Proof.
  apply (setup_listing_raises_TypeError init 0 (PlayerState.mk "Player 1" [] [] []) 0
           (Ship.mk "Carrier" 5 (Some []))); try reflexivity; simpl; lia.
Defined.

(** C7 fails on the code in phase RUNNING.  When a cell of the grid is not
    among the shots of the active player, [get_list_action] lists nothing:
    its first [BattleshipAction(...)] call gives the fields by position and
    raises [TypeError].  In phase FINISHED it returns the empty list. *)
Theorem running_listing_raises_TypeError
    (e : t) (i : nat) (p : PlayerState.t) :
  py_pos (players_of e) (active_index e) = Some i ->
  players_of e !! i = Some p ->
  (phase_of e = RUNNING ->
   forall row col, 0 <= row < grid_size e -> 0 <= col < grid_size e ->
     coord row col ∉ PlayerState.shots p ->
     get_list_action e = (Raises TypeError, e)) /\
  (phase_of e = FINISHED -> get_list_action e = (Returns [], e)).
Proof.
  intros Hi Hp. split.
  - intros Hph row col Hrow Hcol Hfresh.
    rewrite (get_list_action_running e i p Hph Hi Hp).
    now apply (targets_raises _ _ row col).
  - intros Hph. now apply (get_list_action_finished e i p).
Qed.

Lemma running_listing_raises_TypeError_witness :
  coord 0 0 = "A1" /\ coord 9 9 = "J10" /\
  get_list_action duel = (Raises TypeError, duel) /\
  get_list_action game_over = (Returns [], game_over).
Proof.
  split; [reflexivity |]. split; [reflexivity |]. split.
  - destruct (running_listing_raises_TypeError duel 0
                (PlayerState.mk "Player 1" [5%nat] [] []) eq_refl eq_refl) as [H _].
    apply (H eq_refl 0 0); [simpl; lia | simpl; lia |]. apply not_elem_of_nil.
  - destruct (running_listing_raises_TypeError game_over 0
                (PlayerState.mk "Player 1" [] ["C3"] []) eq_refl eq_refl) as [_ H].
    apply (H eq_refl).
Defined.

(** ** Masking *)

(** C2 fails on the code.  [get_player_view] makes no copy: [state_copy] is
    the engine's own state, and the ships it clears are the engine's own.
    After the first player has placed the Carrier on A1..A5, the view of the
    second player is returned, and the state [get_state] returns next shows
    the Carrier of the first player with an empty location. *)
Theorem get_player_view_clears_canonical_ships :
  let e' := after (get_player_view 1) carrier_placed in
  locations_of carrier_placed (state carrier_placed) 0
    = [Some ["A1"; "A2"; "A3"; "A4"; "A5"]] /\
  fst (get_player_view 1 carrier_placed) = Returns (state carrier_placed) /\
  fst (get_state e') = Returns (state carrier_placed) /\
  locations_of e' (state carrier_placed) 0 = [Some []].
Proof. vm_compute. repeat split. Qed.

(** The same call, where the two players hold the same ship object: the view
    of the first player clears the Carrier of the first player too. *)
Lemma get_player_view_clears_own_ships :
  let e' := after (get_player_view 0) shared_carrier in
  locations_of shared_carrier (state shared_carrier) 0
    = [Some ["A1"; "A2"; "A3"; "A4"; "A5"]] /\
  fst (get_player_view 0 shared_carrier) = Returns (state shared_carrier) /\
  locations_of e' (state e') 0 = [Some []].
Proof. vm_compute. repeat split. Qed.

(** ** Every way a call of [apply_action] can go *)

(** The loop never touches the engine before its last pass: it returns with
    the loop's effect, or fails with the engine as it found it. *)
Lemma shoot_scan_step (i : nat) (target : string) (r : ref) (rs : list ref) (e : t) :
  shoot_scan i target (r :: rs) e
  = match store e !! r with
    | None => (Dangling, e)
    | Some s =>
        match Ship.location s with
        | None => (Raises TypeError, e)
        | Some cells =>
            if py_in target cells then (Returns tt, hit i target r e)
            else shoot_scan i target rs e
        end
    end.
Proof.
  simpl. unfold bind at 1, deref.
  destruct (store e !! r) as [s |] eqn:Hs; [| reflexivity].
  destruct (Ship.location s) as [cells |] eqn:Hl; [| reflexivity].
  destruct (py_in target cells); [| reflexivity].
  unfold hit, ship_cells. rewrite Hs, Hl. reflexivity.
Qed.

Lemma shoot_scan_any (i : nat) (target : string) (rs : list ref) (e : t) :
  shoot_scan i target rs e = (Returns tt, scanned i target rs e)
  \/ shoot_scan i target rs e = (Raises TypeError, e)
  \/ shoot_scan i target rs e = (Dangling, e).
Proof.
  unfold scanned. induction rs as [| r rs IH]; [left; reflexivity |].
  rewrite shoot_scan_step. simpl first_hit. unfold ship_has, ship_cells.
  destruct (store e !! r) as [s |]; [| right; right; reflexivity].
  destruct (Ship.location s) as [cells |]; [| right; left; reflexivity].
  destruct (py_in target cells); [left; reflexivity | exact IH].
Qed.

Lemma all_sunk_step (r : ref) (rs : list ref) (e : t) :
  all_sunk (r :: rs) e
  = match store e !! r with
    | None => (Dangling, e)
    | Some s =>
        match Ship.location s with
        | None => (Raises TypeError, e)
        | Some cells => if (length cells =? 0)%nat then all_sunk rs e else (Returns false, e)
        end
    end.
Proof.
  simpl. unfold bind at 1, deref.
  destruct (store e !! r) as [s |]; [| reflexivity].
  destruct (Ship.location s) as [cells |]; [| reflexivity].
  destruct (length cells =? 0)%nat; reflexivity.
Qed.

Lemma all_sunk_any (rs : list ref) (e : t) :
  all_sunk rs e = (Returns (forallb (ship_sunk (store e)) rs), e)
  \/ all_sunk rs e = (Raises TypeError, e)
  \/ all_sunk rs e = (Dangling, e).
Proof.
  induction rs as [| r rs IH]; [left; reflexivity |].
  rewrite all_sunk_step. simpl forallb. unfold ship_sunk at 1, ship_cells.
  destruct (store e !! r) as [s |]; [| right; right; reflexivity].
  destruct (Ship.location s) as [cells |]; [| right; left; reflexivity].
  destruct (length cells =? 0)%nat; [exact IH | left; reflexivity].
Qed.

(** The SHOOT branch from the first cell of the location on: it fails with
    the shot recorded, or with the loop done, or it returns. *)
Lemma apply_shoot_any (e : t) (a : BattleshipAction.t) (i : nat)
      (target : string) (rest : list string) :
  BattleshipAction.location a = target :: rest ->
  (exists x, apply_shoot a i e = (x, shot i target e) /\ x <> Returns tt)
  \/ exists j o,
       py_pos (players_of e) (1 - active_index e) = Some j /\
       players_of e !! j = Some o /\
       ((exists x, apply_shoot a i e
                   = (x, scanned i target (PlayerState.ships o) (shot i target e))
                   /\ x <> Returns tt)
        \/ apply_shoot a i e
           = (Returns tt,
              settled (PlayerState.ships o)
                (scanned i target (PlayerState.ships o) (shot i target e)))).
Proof.
  intros Hl. unfold apply_shoot. rewrite Hl.
  rewrite (bind_returns _ _ e e target) by reflexivity.
  rewrite (bind_returns _ _ e (shot i target e) tt) by reflexivity.
  rewrite (bind_returns _ _ _ (shot i target e) (state (shot i target e))) by reflexivity.
  destruct (py_pos (players_of e) (1 - active_index e)) as [j |] eqn:Hj.
  2:{ left. exists (Raises IndexError). split; [| discriminate].
      apply bind_raises. unfold position, shot, players_of, active_index in *. simpl.
      now rewrite py_pos_alter, Hj. }
  destruct (py_pos_lookup _ _ _ Hj) as [o Ho].
  rewrite (bind_returns _ _ _ (shot i target e) j)
    by (apply position_returns; simpl; rewrite py_pos_alter; exact Hj).
  destruct (ships_alter (PlayerState.append_shot target) i j _ o (fun p => eq_refl) Ho)
    as (o1 & Ho1 & Hs1).
  rewrite (bind_returns _ _ _ (shot i target e) o1)
    by (unfold player, shot; simpl; unfold players_of in *; simpl; now rewrite Ho1).
  rewrite Hs1.
  set (e1 := shot i target e). set (rs := PlayerState.ships o).
  destruct (shoot_scan_any i target rs e1) as [Hscan | [Hscan | Hscan]].
  2:{ left. exists (Raises TypeError). split; [| discriminate].
      now apply bind_raises. }
  2:{ left. exists Dangling. split; [| discriminate]. now apply bind_dangling. }
  right. exists j, o. split; [reflexivity |]. split; [exact Ho |].
  rewrite (bind_returns _ _ _ _ _ Hscan).
  set (e2 := scanned i target rs e1).
  destruct (scanned_player i j target rs e1 o1 Ho1) as (o2 & Ho2 & Hs2).
  fold e2 in Ho2.
  rewrite (bind_returns _ _ _ e2 o2) by (unfold player; unfold players_of in Ho2; now rewrite Ho2).
  rewrite Hs2, Hs1. fold rs.
  destruct (all_sunk_any rs e2) as [Hsunk | [Hsunk | Hsunk]].
  - right. rewrite (bind_returns _ _ _ _ _ Hsunk).
    unfold settled. fold e2. destruct (forallb (ship_sunk (store e2)) rs); reflexivity.
  - left. exists (Raises TypeError). split; [| discriminate]. now apply bind_raises.
  - left. exists Dangling. split; [| discriminate]. now apply bind_dangling.
Qed.

(** A call of [apply_action] fails before it has changed anything, or it is
    a placement that returns, or it is a shot: one that fails with the shot
    recorded, or with the loop over the ships done, or one that returns. *)
Lemma apply_action_any (e : t) (a : BattleshipAction.t) :
  (exists x, apply_action a e = (x, e) /\ x <> Returns tt)
  \/ (exists i r,
        BattleshipAction.action_type a = SET_SHIP /\
        py_pos (players_of e) (active_index e) = Some i /\ r ∈ ships e /\
        apply_action a e
        = (Returns tt, advanced (started i (put i r (BattleshipAction.location a) e))))
  \/ (exists i target rest,
        BattleshipAction.action_type a = SHOOT /\
        BattleshipAction.location a = target :: rest /\
        py_pos (players_of e) (active_index e) = Some i /\
        ((exists x, apply_action a e = (x, shot i target e) /\ x <> Returns tt)
         \/ exists j o,
              py_pos (players_of e) (1 - active_index e) = Some j /\
              players_of e !! j = Some o /\
              ((exists x, apply_action a e
                          = (x, scanned i target (PlayerState.ships o) (shot i target e))
                          /\ x <> Returns tt)
               \/ apply_action a e
                  = (Returns tt,
                     advanced (settled (PlayerState.ships o)
                                 (scanned i target (PlayerState.ships o)
                                    (shot i target e))))))).
Proof.
  destruct (py_pos (players_of e) (active_index e)) as [i |] eqn:Hi.
  2:{ left. exists (Raises IndexError). split; [| discriminate].
      unfold apply_action.
      rewrite (bind_returns _ _ e e (state e)) by reflexivity.
      apply bind_raises. unfold position.
      unfold players_of, active_index in Hi. now rewrite Hi. }
  destruct (BattleshipAction.action_type a) eqn:Ha.
  - destruct (apply_action_set_ship e a i Ha Hi) as [(r & Hr & Hrun) | [Hrun | Hrun]].
    + right; left. exists i, r. easy.
    + left. exists (Raises StopIteration). split; [exact Hrun | discriminate].
    + left. exists Dangling. split; [exact Hrun | discriminate].
  - destruct (BattleshipAction.location a) as [| target rest] eqn:Hl.
    { left. exists (Raises IndexError). split; [| discriminate].
      now apply (apply_action_shoot_nowhere e a i). }
    right; right. exists i, target, rest.
    split; [reflexivity |]. split; [reflexivity |]. split; [reflexivity |].
    assert (Hfail : forall x e', apply_shoot a i e = (x, e') -> x <> Returns tt ->
                                 apply_action a e = (x, e')).
    { intros x e' Hx Hne. unfold apply_action.
      rewrite (bind_returns _ _ e e (state e)) by reflexivity.
      rewrite (bind_returns _ _ e e i) by (apply position_returns; exact Hi).
      rewrite Ha. unfold bind at 1. rewrite Hx.
      destruct x as [[] | x |]; [congruence | reflexivity | reflexivity]. }
    destruct (apply_shoot_any e a i target rest Hl)
      as [(x & Hx & Hne) | (j & o & Hj & Ho & [(x & Hx & Hne) | Hrun])].
    + left. exists x. split; [now apply Hfail | exact Hne].
    + right. exists j, o. split; [exact Hj |]. split; [exact Ho |].
      left. exists x. split; [now apply Hfail | exact Hne].
    + right. exists j, o. split; [exact Hj |]. split; [exact Ho |]. right.
      unfold apply_action.
      rewrite (bind_returns _ _ e e (state e)) by reflexivity.
      rewrite (bind_returns _ _ e e i) by (apply position_returns; exact Hi).
      rewrite Ha. rewrite (bind_returns _ _ _ _ _ Hrun). apply advance_turn_spec.
Qed.

(** The players after a call: as before, or with one ship, one shot, or one
    shot and one hit appended for the player at one position. *)
Lemma apply_action_players (e : t) (a : BattleshipAction.t) :
  let ps := players_of e in
  let ps' := players_of (after (apply_action a) e) in
  ps' = ps
  \/ (exists i r, ps' = alter (PlayerState.append_ship r) i ps)
  \/ (exists i target,
        ps' = alter (PlayerState.append_shot target) i ps
        \/ ps' = alter (PlayerState.append_successful_shot target) i
                   (alter (PlayerState.append_shot target) i ps)).
Proof.
  intros ps ps'. subst ps ps'. unfold after.
  assert (Hscan : forall i target rs,
             players_of (scanned i target rs (shot i target e))
             = alter (PlayerState.append_shot target) i (players_of e)
             \/ players_of (scanned i target rs (shot i target e))
                = alter (PlayerState.append_successful_shot target) i
                    (alter (PlayerState.append_shot target) i (players_of e))).
  { intros i target rs. unfold scanned.
    destruct (first_hit (store (shot i target e)) target rs) as [r |]; [| now left].
    unfold hit. destruct (ship_cells (store (shot i target e)) r); [now right | now left]. }
  destruct (apply_action_any e a)
    as [(x & -> & _) | [(i & r & _ & _ & _ & ->) | (i & target & rest & _ & _ & _ & H)]];
    simpl snd.
  - now left.
  - right; left. exists i, r.
    destruct (advanced_frame (started i (put i r (BattleshipAction.location a) e)))
      as (_ & _ & -> & _).
    now destruct (started_put_frame i r (BattleshipAction.location a) e) as (_ & _ & _ & -> & _).
  - right; right. exists i, target.
    destruct H as [(x & -> & _) | (j & o & _ & _ & [(x & -> & _) | ->])]; simpl snd.
    + now left.
    + apply Hscan.
    + destruct (advanced_settled (PlayerState.ships o)
                  (scanned i target (PlayerState.ships o) (shot i target e)))
        as (_ & -> & _).
      apply Hscan.
Qed.

Lemma player_grown_refl (p : PlayerState.t) : player_grown p p.
Proof. repeat split; reflexivity. Qed.

Lemma player_grown_trans (p q r : PlayerState.t) :
  player_grown p q -> player_grown q r -> player_grown p r.
Proof.
  intros (H1 & H2 & H3 & H4) (K1 & K2 & K3 & K4).
  split; [congruence |]. repeat split; etransitivity; eassumption.
Qed.

Lemma players_grown_alter (f : PlayerState.t -> PlayerState.t) (i : nat)
      (ps ps' : list PlayerState.t) :
  (forall p, player_grown p (f p)) ->
  Forall2 player_grown ps ps' ->
  Forall2 player_grown ps (alter f i ps').
Proof.
  intros Hf H. apply Forall2_alter_r; [exact H |].
  intros p q _ _ Hpq. eapply player_grown_trans; [exact Hpq | apply Hf].
Qed.

Lemma player_grown_append_ship (r : ref) (p : PlayerState.t) :
  player_grown p (PlayerState.append_ship r p).
Proof. repeat split; try reflexivity. simpl. now apply prefix_app_r. Qed.

Lemma player_grown_append_shot (c : string) (p : PlayerState.t) :
  player_grown p (PlayerState.append_shot c p).
Proof. repeat split; try reflexivity. simpl. now apply prefix_app_r. Qed.

Lemma player_grown_append_successful_shot (c : string) (p : PlayerState.t) :
  player_grown p (PlayerState.append_successful_shot c p).
Proof. repeat split; try reflexivity. simpl. now apply prefix_app_r. Qed.

(** ** What [apply_action] keeps *)

(** X1.  Whatever the action and however the call ends, [apply_action] only
    appends: the players are as many as before and keep their names, and the
    ships, the shots and the successful shots of each are the lists of before
    with nothing or something added at the end. *)
Theorem apply_action_only_appends (e : t) (a : BattleshipAction.t) :
  Forall2 player_grown (players_of e) (players_of (after (apply_action a) e)).
Proof.
  assert (Hrefl : Forall2 player_grown (players_of e) (players_of e)).
  { apply Forall_Forall2_diag, Forall_forall. intros p _. apply player_grown_refl. }
  destruct (apply_action_players e a) as [-> | [(i & r & ->) | (i & target & [-> | ->])]].
  - exact Hrefl.
  - apply players_grown_alter; auto using player_grown_append_ship.
  - apply players_grown_alter; auto using player_grown_append_shot.
  - apply players_grown_alter; auto using player_grown_append_successful_shot.
    apply players_grown_alter; auto using player_grown_append_shot.
Qed.

Lemma py_in_app (c : string) (l k : list string) :
  py_in c (l ++ k) = py_in c l || py_in c k.
Proof. unfold py_in. apply existsb_app. Qed.

Lemma py_in_here (c : string) : py_in c [c] = true.
Proof. unfold py_in. simpl. now rewrite String.eqb_refl. Qed.

Lemma hits_among_shots_append_shot (c : string) (p : PlayerState.t) :
  hits_among_shots p = true -> hits_among_shots (PlayerState.append_shot c p) = true.
Proof.
  unfold hits_among_shots. simpl. rewrite !forallb_forall. intros H x Hx.
  rewrite py_in_app, (H x Hx). reflexivity.
Qed.

Lemma hits_among_shots_hit (c : string) (p : PlayerState.t) :
  hits_among_shots p = true ->
  hits_among_shots
    (PlayerState.append_successful_shot c (PlayerState.append_shot c p)) = true.
Proof.
  unfold hits_among_shots. simpl. rewrite !forallb_forall. intros H x Hx.
  rewrite py_in_app. apply in_app_or in Hx as [Hx | [<- | []]].
  - now rewrite (H x Hx).
  - rewrite py_in_here. apply orb_true_r.
Qed.

(** X2.  If the successful shots of every player are among the player's
    shots, they still are after a call of [apply_action], however it ends. *)
Theorem apply_action_keeps_hits_among_shots (e : t) (a : BattleshipAction.t) :
  forallb hits_among_shots (players_of e) = true ->
  forallb hits_among_shots (players_of (after (apply_action a) e)) = true.
Proof.
  rewrite !forallb_forall. setoid_rewrite <- list_elem_of_In.
  rewrite <- !Forall_forall. intros H.
  destruct (apply_action_players e a) as [-> | [(i & r & ->) | (i & target & [-> | ->])]].
  - exact H.
  - apply Forall_alter; [exact H |]. intros p _ Hp. exact Hp.
  - apply Forall_alter; [exact H |]. intros p _ Hp. now apply hits_among_shots_append_shot.
  - apply Forall_alter.
    + apply Forall_alter; [exact H |].
      intros p _ Hp. now apply hits_among_shots_append_shot.
    + intros q Hq _. rewrite list_lookup_alter_eq in Hq.
      destruct (players_of e !! i) as [p |] eqn:Hp; [| discriminate].
      simpl in Hq. inversion Hq; subst q.
      apply hits_among_shots_hit.
      exact (Forall_lookup_1 _ _ i p H Hp).
Qed.

Lemma apply_action_keeps_hits_among_shots_witness :
  forallb hits_among_shots (players_of (after (apply_action (shoot_at "B1")) duel)) = true.
Proof.
  apply (apply_action_keeps_hits_among_shots duel (shoot_at "B1")). reflexivity.
Defined.

Lemma scanned_store (i : nat) (target : string) (rs : list ref) (e : t) :
  store (scanned i target rs e) = store e
  \/ exists r l, store (scanned i target rs e) = alter (Ship.set_location l) r (store e).
Proof.
  unfold scanned. destruct (first_hit (store e) target rs) as [r |]; [| now left].
  unfold hit. destruct (ship_cells (store e) r) as [cells |]; [| now left].
  right. now exists r, (Some (py_remove target cells)).
Qed.

Lemma scanned_roster (i : nat) (target : string) (rs : list ref) (e : t) :
  ships (scanned i target rs e) = ships e
  /\ grid_size (scanned i target rs e) = grid_size e.
Proof.
  unfold scanned. destruct (first_hit (store e) target rs) as [r |]; [| easy].
  unfold hit. destruct (ship_cells (store e) r); easy.
Qed.

Lemma settled_roster (rs : list ref) (e : t) :
  ships (settled rs e) = ships e /\ grid_size (settled rs e) = grid_size e.
Proof. unfold settled. destruct (forallb (ship_sunk (store e)) rs); easy. Qed.

Lemma advanced_roster (e : t) :
  ships (advanced e) = ships e /\ grid_size (advanced e) = grid_size e.
Proof. unfold advanced. destruct (GamePhase_eqb (phase_of e) RUNNING); easy. Qed.

Lemma started_roster (i : nat) (e : t) :
  ships (started i e) = ships e /\ grid_size (started i e) = grid_size e
  /\ store (started i e) = store e.
Proof. unfold started. destruct (game_starts i e); easy. Qed.

(** The roster, the grid and the store after a call. *)
Lemma apply_action_store (e : t) (a : BattleshipAction.t) :
  let e' := after (apply_action a) e in
  ships e' = ships e /\ grid_size e' = grid_size e /\
  (store e' = store e
   \/ exists r l, store e' = alter (Ship.set_location l) r (store e)).
Proof.
  intros e'. subst e'. unfold after.
  destruct (apply_action_any e a)
    as [(x & -> & _) | [(i & r & _ & _ & _ & ->) | (i & target & rest & _ & _ & _ & H)]];
    simpl snd.
  - split; [reflexivity |]. split; [reflexivity | now left].
  - set (e0 := put i r (BattleshipAction.location a) e).
    destruct (advanced_roster (started i e0)) as [-> ->].
    destruct (advanced_frame (started i e0)) as (_ & -> & _).
    destruct (started_roster i e0) as (-> & -> & ->).
    split; [reflexivity |]. split; [reflexivity |].
    right. now exists r, (Some (BattleshipAction.location a)).
  - destruct H as [(x & -> & _) | (j & o & _ & _ & [(x & -> & _) | ->])]; simpl snd.
    + split; [reflexivity |]. split; [reflexivity | now left].
    + destruct (scanned_roster i target (PlayerState.ships o) (shot i target e)) as [H1 H2].
      split; [exact H1 |]. split; [exact H2 |].
      apply (scanned_store i target (PlayerState.ships o) (shot i target e)).
    + set (e2 := scanned i target (PlayerState.ships o) (shot i target e)).
      destruct (advanced_roster (settled (PlayerState.ships o) e2)) as [H1 H2].
      destruct (advanced_settled (PlayerState.ships o) e2) as (H3 & _).
      destruct (settled_roster (PlayerState.ships o) e2) as [H4 H5].
      destruct (scanned_roster i target (PlayerState.ships o) (shot i target e)) as [H6 H7].
      fold e2 in H6, H7.
      split; [now rewrite H1, H4, H6 |]. split; [now rewrite H2, H5, H7 |].
      rewrite H3. apply (scanned_store i target (PlayerState.ships o) (shot i target e)).
Qed.

(** X3.  Whatever the action and however the call ends, [apply_action]
    leaves the roster and the grid size as they are, and in the store it
    changes locations only: there are as many ships as before, each with the
    name and the length it had. *)
Theorem apply_action_keeps_roster_and_ships (e : t) (a : BattleshipAction.t) :
  let e' := after (apply_action a) e in
  ships e' = ships e /\ grid_size e' = grid_size e /\
  Forall2 same_ship (store e) (store e').
Proof.
  intros e'. destruct (apply_action_store e a) as (Hr & Hg & Hs). fold e' in Hr, Hg, Hs.
  split; [exact Hr |]. split; [exact Hg |].
  assert (Hrefl : Forall2 same_ship (store e) (store e)).
  { apply Forall_Forall2_diag, Forall_forall. intros s _. split; reflexivity. }
  destruct Hs as [-> | (r & l & ->)]; [exact Hrefl |].
  apply Forall2_alter_r; [exact Hrefl |].
  intros s s' _ _ [H1 H2]. split; simpl; assumption.
Qed.

(** X4.  Only a shot that sinks the last ship sets the winner.  A call of
    [apply_action] with a SET_SHIP action, or a call that does not return,
    leaves the winner as it was.  A SHOOT that returns finds the opponent at
    [1 - idx_player_active]; if every ship of the opponent has an empty
    location once the call is over, the winner is the index that was active
    and the phase is FINISHED; if not, the winner and the phase are the ones
    of before, whatever the phase was.  So a winner, once set, is never
    unset. *)
Theorem apply_action_winner_only_set_by_shot (e : t) (a : BattleshipAction.t) :
  let e' := after (apply_action a) e in
  (BattleshipAction.action_type a = SET_SHIP \/ fst (apply_action a e) <> Returns tt ->
   winner_of e' = winner_of e)
  /\ (BattleshipAction.action_type a = SHOOT -> fst (apply_action a e) = Returns tt ->
      exists j,
        py_pos (players_of e) (1 - active_index e) = Some j /\
        (Forall (fun l => l = Some []) (locations_of e' (state e') j) ->
         winner_of e' = Some (active_index e) /\ phase_of e' = FINISHED) /\
        (~ Forall (fun l => l = Some []) (locations_of e' (state e') j) ->
         winner_of e' = winner_of e /\ phase_of e' = phase_of e))
  /\ (winner_of e <> None -> winner_of e' <> None).
Proof.
  intros e'. subst e'. unfold after.
  destruct (apply_action_any e a)
    as [(x & Hrun & Hx) | [(i & r & Ha & _ & _ & Hrun) | (i & target & rest & Ha & _ & _ & H)]].
  - rewrite Hrun. simpl snd. simpl fst.
    split; [reflexivity |]. split; [| easy]. intros _ Hret. contradiction.
  - rewrite Hrun. simpl snd. simpl fst.
    assert (Hw : winner_of (advanced (started i (put i r (BattleshipAction.location a) e)))
                 = winner_of e).
    { destruct (advanced_frame (started i (put i r (BattleshipAction.location a) e)))
        as (_ & _ & _ & _ & ->).
      now destruct (started_put_frame i r (BattleshipAction.location a) e)
        as (_ & _ & -> & _). }
    split; [intros _; exact Hw |]. split.
    + intros Hs. rewrite Ha in Hs. discriminate.
    + now rewrite Hw.
  - destruct H as [(x & Hrun & Hx) | (j & o & Hj & Ho & [(x & Hrun & Hx) | Hrun])];
      rewrite Hrun; simpl snd; simpl fst.
    + split; [reflexivity |]. split; [| easy]. intros _ Hret. contradiction.
    + destruct (scanned_shot_frame i target (PlayerState.ships o) e) as (_ & _ & Hw).
      split; [intros _; exact Hw |]. split.
      * intros _ Hret. contradiction.
      * now rewrite Hw.
    + pose proof (shoot_opponent_locations e i j target o Ho) as Hloc. simpl in Hloc.
      set (e2 := scanned i target (PlayerState.ships o) (shot i target e)) in *.
      destruct (scanned_shot_frame i target (PlayerState.ships o) e) as (Hph & Hidx & Hw).
      fold e2 in Hph, Hidx, Hw.
      pose proof (all_sunk_locations (store e2) (PlayerState.ships o)) as Hall.
      destruct (advanced_settled (PlayerState.ships o) e2) as (_ & _ & Hout).
      destruct (forallb (ship_sunk (store e2)) (PlayerState.ships o)) eqn:Hsunk.
      * destruct Hout as (H1 & H2 & _). rewrite Hidx in H2.
        split; [| split].
        -- intros [Hs | Hne]; [rewrite Ha in Hs; discriminate | now contradiction Hne].
        -- intros _ _. exists j. split; [exact Hj |]. rewrite Hloc. split.
           ++ intros _. split; [exact H2 | exact H1].
           ++ intros Hn. contradiction Hn. now apply Hall.
        -- intros _. rewrite H2. discriminate.
      * destruct Hout as (H1 & H2 & _). rewrite Hw in H2. rewrite Hph in H1.
        split; [| split].
        -- intros _. exact H2.
        -- intros _ _. exists j. split; [exact Hj |]. rewrite Hloc. split.
           ++ intros Hy. apply Hall in Hy. discriminate.
           ++ intros _. split; [exact H2 | exact H1].
        -- now rewrite H2.
Qed.

(** The three cases: the shot in [no_ships] sets the winner; the shot in
    [lost], a finished game in which the opponent still has a ship, leaves the
    second player the winner; a placement in [game_over] changes no winner. *)
Lemma apply_action_winner_only_set_by_shot_witness :
  (let e' := after (apply_action (shoot_at "C3")) no_ships in
   winner_of no_ships = None /\ winner_of e' = Some 0 /\ phase_of e' = FINISHED) /\
  (let e' := after (apply_action (shoot_at "C3")) lost in
   active_index lost = 0 /\ winner_of e' = Some 1 /\ phase_of e' = FINISHED) /\
  (let e' := after (apply_action carrier_A1) game_over in
   winner_of e' = winner_of game_over /\ winner_of e' <> None).
Proof.
  split; [| split].
  - destruct (apply_action_winner_only_set_by_shot no_ships (shoot_at "C3"))
      as (_ & H & _).
    destruct (H eq_refl eq_refl) as (j & Hj & Hall & _).
    vm_compute in Hj. inversion Hj; subst j.
    split; [reflexivity |]. apply Hall. vm_compute. constructor.
  - destruct (apply_action_winner_only_set_by_shot lost (shoot_at "C3"))
      as (_ & H & _).
    destruct (H eq_refl eq_refl) as (j & Hj & _ & Hnot).
    vm_compute in Hj. inversion Hj; subst j.
    split; [reflexivity |]. apply Hnot. vm_compute. intros Hall.
    inversion Hall as [| l ls Hl _]. discriminate Hl.
  - destruct (apply_action_winner_only_set_by_shot game_over carrier_A1)
      as (H & _ & Hset).
    split; [apply H; left; reflexivity |]. apply Hset. vm_compute. discriminate.
Defined.

(** X5.  The turn passes at the end of a call that returns, if the phase is
    then RUNNING, whatever the action was, and at no other moment: a call that
    returns in another phase, and a call that raises, leave the active index
    as it was, and a call that raises leaves the phase and the winner too. *)
Theorem apply_action_turn (e : t) (a : BattleshipAction.t) :
  let e' := after (apply_action a) e in
  (fst (apply_action a e) = Returns tt ->
   active_index e' = if GamePhase_eqb (phase_of e') RUNNING
                     then 1 - active_index e else active_index e) /\
  (fst (apply_action a e) <> Returns tt ->
   active_index e' = active_index e /\ phase_of e' = phase_of e
   /\ winner_of e' = winner_of e).
Proof.
  intros e'. subst e'. unfold after.
  assert (Hadv : forall e0, active_index e0 = active_index e ->
            active_index (advanced e0)
            = if GamePhase_eqb (phase_of (advanced e0)) RUNNING
              then 1 - active_index e else active_index e).
  { intros e0 H0. destruct (advanced_frame e0) as (_ & _ & _ & -> & _).
    now rewrite advanced_index, H0. }
  destruct (apply_action_any e a)
    as [(x & -> & Hx) | [(i & r & _ & _ & _ & ->) | (i & target & rest & _ & _ & _ & H)]];
    simpl snd; simpl fst.
  - split; [intros H; contradiction | easy].
  - split; [intros _ | intros H; now elim H].
    apply Hadv.
    now destruct (started_put_frame i r (BattleshipAction.location a) e) as (_ & -> & _).
  - destruct H as [(x & -> & Hx) | (j & o & _ & _ & [(x & -> & Hx) | ->])];
      simpl snd; simpl fst.
    + split; [intros H; contradiction | easy].
    + split; [intros H; contradiction | intros _].
      destruct (scanned_shot_frame i target (PlayerState.ships o) e) as (H1 & H2 & H3).
      easy.
    + split; [intros _ | intros H; now elim H].
      apply Hadv.
      set (e2 := scanned i target (PlayerState.ships o) (shot i target e)).
      destruct (scanned_shot_frame i target (PlayerState.ships o) e) as (_ & Hidx & _).
      fold e2 in Hidx. unfold settled.
      destruct (forallb (ship_sunk (store e2)) (PlayerState.ships o)); exact Hidx.
Qed.

Lemma apply_action_turn_witness :
  let e' := after (apply_action (shoot_at "C3")) duel in
  (fst (apply_action (shoot_at "C3") duel) = Returns tt ->
   active_index e' = if GamePhase_eqb (phase_of e') RUNNING
                     then 1 - active_index duel else active_index duel) /\
  (fst (apply_action (shoot_at "C3") duel) <> Returns tt ->
   active_index e' = active_index duel /\ phase_of e' = phase_of duel
   /\ winner_of e' = winner_of duel).
Proof. apply (apply_action_turn duel (shoot_at "C3")). Defined.

(** X6.  No phase is tested before a shot.  In any state [apply_action]
    leads to from a new engine, in phase SETUP too, a SHOOT action with a cell
    returns and ends the game: the second player holds no ship, so the phase
    becomes FINISHED and the winner is player 0. *)
Theorem shoot_in_new_game_wins
    (e : t) (a : BattleshipAction.t) (target : string) (rest : list string) :
  reachable e ->
  BattleshipAction.action_type a = SHOOT ->
  BattleshipAction.location a = target :: rest ->
  let e' := after (apply_action a) e in
  fst (apply_action a e) = Returns tt /\
  phase_of e' = FINISHED /\ winner_of e' = Some 0.
Proof.
  intros Hr Ha Hl e'. subst e'. unfold after.
  destruct (reachable_first_player_only e Hr) as ((Hidx & _ & p0 & p1 & Hpl & Hp1) & _).
  destruct p1 as [n1 rs1 sh1 ss1]. simpl in Hp1. subst rs1.
  set (p1 := PlayerState.mk n1 [] sh1 ss1) in *.
  assert (Hi : py_pos (players_of e) (active_index e) = Some 0%nat)
    by (rewrite Hpl, Hidx; reflexivity).
  assert (Hj : py_pos (players_of e) (1 - active_index e) = Some 1%nat)
    by (rewrite Hpl, Hidx; reflexivity).
  assert (Ho : players_of e !! 1%nat = Some p1) by (rewrite Hpl; reflexivity).
  assert (Hp : placed (store e) (PlayerState.ships p1)) by constructor.
  rewrite (apply_action_shoot e a 0 1 target rest p1 Ha Hl Hi Hj Ho Hp).
  simpl fst. simpl snd. split; [reflexivity |].
  destruct (scanned_shot_frame 0 target (PlayerState.ships p1) e) as (_ & Hidx2 & _).
  destruct (advanced_settled (PlayerState.ships p1)
              (scanned 0 target (PlayerState.ships p1) (shot 0 target e)))
    as (_ & _ & Hout).
  simpl in Hout, Hidx2.
  destruct Hout as (H1 & H2 & _). rewrite H1, H2, Hidx2, Hidx. easy.
Qed.

Lemma shoot_in_new_game_wins_witness :
  let e' := after (apply_action (shoot_at "A1")) carrier_placed in
  fst (apply_action (shoot_at "A1") carrier_placed) = Returns tt /\
  phase_of e' = FINISHED /\ winner_of e' = Some 0.
Proof.
  apply (shoot_in_new_game_wins carrier_placed (shoot_at "A1") "A1" []);
    [| reflexivity | reflexivity].
  apply reachable_apply, reachable_init.
Defined.

(** ** Calls that raise *)

(** X7.  When the active index is no position of the players, both
    [apply_action] and [get_list_action] raise [IndexError] on their first
    statement, and the engine is left as it was. *)
Theorem no_active_player_raises_IndexError (e : t) (a : BattleshipAction.t) :
  py_pos (players_of e) (active_index e) = None ->
  apply_action a e = (Raises IndexError, e)
  /\ get_list_action e = (Raises IndexError, e).
Proof.
  intros Hi. unfold players_of, active_index in Hi. split.
  - unfold apply_action.
    rewrite (bind_returns _ _ e e (state e)) by reflexivity.
    apply bind_raises. unfold position. now rewrite Hi.
  - unfold get_list_action.
    rewrite (bind_returns _ _ e e (state e)) by reflexivity.
    apply bind_raises. unfold position. now rewrite Hi.
Qed.

Lemma no_active_player_raises_IndexError_witness :
  apply_action carrier_A1 nobody_active = (Raises IndexError, nobody_active)
  /\ get_list_action nobody_active = (Raises IndexError, nobody_active).
Proof.
  apply (no_active_player_raises_IndexError nobody_active carrier_A1). reflexivity.
Defined.

(** X8.  A SHOOT action whose location is empty raises [IndexError] at
    [action.location[0]], before anything is recorded. *)
Theorem shoot_without_cell_raises_IndexError
    (e : t) (a : BattleshipAction.t) (i : nat) :
  BattleshipAction.action_type a = SHOOT ->
  BattleshipAction.location a = [] ->
  py_pos (players_of e) (active_index e) = Some i ->
  apply_action a e = (Raises IndexError, e).
Proof.
  intros Ha Hl Hi. unfold apply_action.
  rewrite (bind_returns _ _ e e (state e)) by reflexivity.
  rewrite (bind_returns _ _ e e i) by (apply position_returns; exact Hi).
  rewrite Ha. apply bind_raises. unfold apply_shoot. rewrite Hl.
  apply bind_raises. reflexivity.
Qed.

Lemma shoot_without_cell_raises_IndexError_witness :
  apply_action (BattleshipAction.mk SHOOT None []) duel = (Raises IndexError, duel).
Proof.
  apply (shoot_without_cell_raises_IndexError duel (BattleshipAction.mk SHOOT None []) 0);
    reflexivity.
Defined.

(** X9.  The shot is recorded before the opponent is looked up.  When
    [1 - idx_player_active] is no position of the players, a SHOOT action
    raises [IndexError], and the engine it leaves has the target among the
    shots of the active player; nothing else has changed. *)
Theorem shoot_without_opponent_raises_after_recording
    (e : t) (a : BattleshipAction.t) (i : nat) (target : string) (rest : list string) :
  BattleshipAction.action_type a = SHOOT ->
  BattleshipAction.location a = target :: rest ->
  py_pos (players_of e) (active_index e) = Some i ->
  py_pos (players_of e) (1 - active_index e) = None ->
  apply_action a e = (Raises IndexError, shot i target e).
Proof.
  intros Ha Hl Hi Hj. unfold apply_action.
  rewrite (bind_returns _ _ e e (state e)) by reflexivity.
  rewrite (bind_returns _ _ e e i) by (apply position_returns; exact Hi).
  rewrite Ha. apply bind_raises. unfold apply_shoot. rewrite Hl.
  rewrite (bind_returns _ _ e e target) by reflexivity.
  rewrite (bind_returns _ _ e (shot i target e) tt) by reflexivity.
  rewrite (bind_returns _ _ _ (shot i target e) (state (shot i target e))) by reflexivity.
  apply bind_raises. unfold position, shot, players_of, active_index in *. simpl.
  now rewrite py_pos_alter, Hj.
Qed.

Lemma shoot_without_opponent_raises_after_recording_witness :
  apply_action (shoot_at "A1") last_active = (Raises IndexError, shot 1 "A1" last_active).
Proof.
  apply (shoot_without_opponent_raises_after_recording last_active (shoot_at "A1") 1 "A1" []);
    reflexivity.
Defined.

Lemma shoot_scan_unplaced (i : nat) (target : string) (pre post : list ref) (r : ref)
      (s : Ship.t) (e : t) :
  Forall (fun r' => exists cells, ship_cells (store e) r' = Some cells
                                  /\ py_in target cells = false) pre ->
  store e !! r = Some s ->
  Ship.location s = None ->
  shoot_scan i target (pre ++ r :: post) e = (Raises TypeError, e).
Proof.
  intros Hpre Hs Hl. induction Hpre as [| r' pre (cells & Hc & Hin) _ IH].
  - simpl app. rewrite shoot_scan_step, Hs, Hl. reflexivity.
  - simpl app. rewrite shoot_scan_step. unfold ship_cells in Hc.
    destruct (store e !! r') as [s' |]; [| discriminate].
    rewrite Hc, Hin. exact IH.
Qed.

(** X10.  A ship built without a location has [location = None].  When the
    loop of a SHOOT action comes to such a ship of the opponent before it has
    met a ship holding the target, the call raises [TypeError], and the
    engine it leaves has the target among the shots of the active player;
    nothing else has changed. *)
Theorem shoot_at_unplaced_ship_raises_TypeError
    (e : t) (a : BattleshipAction.t) (i j : nat) (target : string) (rest : list string)
    (o : PlayerState.t) (pre post : list ref) (r : ref) (s : Ship.t) :
  BattleshipAction.action_type a = SHOOT ->
  BattleshipAction.location a = target :: rest ->
  py_pos (players_of e) (active_index e) = Some i ->
  py_pos (players_of e) (1 - active_index e) = Some j ->
  players_of e !! j = Some o ->
  PlayerState.ships o = (pre ++ r :: post)%list ->
  Forall (fun r' => exists cells, ship_cells (store e) r' = Some cells
                                  /\ py_in target cells = false) pre ->
  store e !! r = Some s ->
  Ship.location s = None ->
  apply_action a e = (Raises TypeError, shot i target e).
Proof.
  intros Ha Hl Hi Hj Ho Hsplit Hpre Hs Hloc. unfold apply_action.
  rewrite (bind_returns _ _ e e (state e)) by reflexivity.
  rewrite (bind_returns _ _ e e i) by (apply position_returns; exact Hi).
  rewrite Ha. apply bind_raises. unfold apply_shoot. rewrite Hl.
  rewrite (bind_returns _ _ e e target) by reflexivity.
  rewrite (bind_returns _ _ e (shot i target e) tt) by reflexivity.
  rewrite (bind_returns _ _ _ (shot i target e) (state (shot i target e))) by reflexivity.
  rewrite (bind_returns _ _ _ (shot i target e) j)
    by (apply position_returns; simpl; rewrite py_pos_alter; exact Hj).
  destruct (ships_alter (PlayerState.append_shot target) i j _ o (fun p => eq_refl) Ho)
    as (o1 & Ho1 & Hs1).
  rewrite (bind_returns _ _ _ (shot i target e) o1)
    by (unfold player, shot; simpl; unfold players_of in *; simpl; now rewrite Ho1).
  rewrite Hs1, Hsplit. apply bind_raises.
  now apply (shoot_scan_unplaced i target pre post r s (shot i target e)).
Qed.

Lemma shoot_at_unplaced_ship_raises_TypeError_witness :
  apply_action (shoot_at "A1") unplaced_ship
  = (Raises TypeError, shot 0 "A1" unplaced_ship).
Proof.
  apply (shoot_at_unplaced_ship_raises_TypeError unplaced_ship (shoot_at "A1") 0 1 "A1" []
           (PlayerState.mk "Player 2" [5%nat] [] []) [] [] 5
           (Ship.mk "Destroyer" 2 None)); try reflexivity.
  constructor.
Defined.

(** ** More on the list of actions *)

Lemma reads_only_bind {A B : Type} (m : M A) (k : A -> M B) :
  reads_only m -> (forall x, reads_only (k x)) -> reads_only (bind m k).
Proof.
  intros Hm Hk e. specialize (Hm e). unfold after, bind in *.
  destruct (m e) as [[x | x |] e']; simpl in Hm; subst e'; [apply Hk | reflexivity..].
Qed.

Lemma reads_only_ret {A : Type} (x : A) : reads_only (ret x).
Proof. intros e. reflexivity. Qed.

Lemma reads_only_gets {A : Type} (f : t -> A) : reads_only (gets f).
Proof. intros e. reflexivity. Qed.

Lemma reads_only_position {A : Type} (l : list A) (i : Z) : reads_only (position l i).
Proof. intros e. unfold after, position. destruct (py_pos l i); reflexivity. Qed.

Lemma reads_only_getitem {A : Type} (l : list A) (i : Z) : reads_only (getitem l i).
Proof.
  intros e. unfold after, getitem.
  destruct (py_pos l i) as [n |]; [destruct (l !! n) |]; reflexivity.
Qed.

Lemma reads_only_player (pos : nat) : reads_only (player pos).
Proof.
  intros e. unfold after, player.
  destruct (BattleshipGameState.players (state e) !! pos); reflexivity.
Qed.

Lemma reads_only_deref (r : ref) : reads_only (deref r).
Proof. intros e. unfold after, deref. destruct (store e !! r); reflexivity. Qed.

(** X11.  [get_list_action] only reads: however the call ends, the engine
    is the one it was given. *)
Theorem get_list_action_reads_only (e : t) : after get_list_action e = e.
Proof.
  revert e. change (reads_only get_list_action). unfold get_list_action. cbv zeta.
  apply reads_only_bind; [apply reads_only_gets | intros st].
  apply reads_only_bind; [apply reads_only_position | intros i].
  apply reads_only_bind; [apply reads_only_player | intros p].
  destruct (BattleshipGameState.phase st).
  - apply reads_only_bind; [apply reads_only_gets | intros roster].
    destruct (length (PlayerState.ships p) <? length roster)%nat;
      [| apply reads_only_ret].
    apply reads_only_bind; [apply reads_only_getitem | intros r].
    apply reads_only_bind; [apply reads_only_deref | intros s].
    apply reads_only_bind; [apply reads_only_gets | intros g].
    intros e. unfold after.
    destruct (placements_keeps_or_raises g s [] e) as [-> | ->]; reflexivity.
  - apply reads_only_bind; [apply reads_only_gets | intros g].
    intros e. unfold after.
    destruct (targets_keeps_or_raises g (PlayerState.shots p) [] e) as [-> | ->];
      reflexivity.
  - apply reads_only_ret.
Qed.

(** X12.  In phase SETUP, when the active player holds as many ships as the
    roster has, or more, [get_list_action] returns the empty list. *)
Theorem setup_actions_empty_when_roster_placed (e : t) (i : nat) (p : PlayerState.t) :
  phase_of e = SETUP ->
  py_pos (players_of e) (active_index e) = Some i ->
  players_of e !! i = Some p ->
  (length (ships e) <= length (PlayerState.ships p))%nat ->
  get_list_action e = (Returns [], e).
Proof.
  intros Hph Hi Hp Hle. unfold get_list_action. cbv zeta.
  rewrite (bind_returns _ _ e e (state e)) by reflexivity.
  rewrite (bind_returns _ _ e e i) by (apply position_returns; exact Hi).
  rewrite (bind_returns _ _ e e p) by (unfold player; unfold players_of in Hp; now rewrite Hp).
  unfold phase_of in Hph. rewrite Hph.
  rewrite (bind_returns _ _ e e (ships e)) by reflexivity.
  apply Nat.ltb_ge in Hle. now rewrite Hle.
Qed.

Lemma setup_actions_empty_when_roster_placed_witness :
  get_list_action roster_placed = (Returns [], roster_placed).
Proof.
  apply (setup_actions_empty_when_roster_placed roster_placed 0
           (PlayerState.mk "Player 1" [0; 1; 2; 3; 4]%nat [] [])); reflexivity.
Defined.

(** X13.  [get_list_action] never returns an action.  Whenever the call
    returns, the list is empty: each action it would list is built by a
    [BattleshipAction(...)] call with the fields by position, which raises
    [TypeError]. *)
Theorem get_list_action_returns_only_empty
    (e : t) (actions : list BattleshipAction.t) :
  fst (get_list_action e) = Returns actions -> actions = [].
Proof.
  intros Hget.
  destruct (fst (get_list_action e)) as [l | x |] eqn:Hfst; try discriminate.
  inversion Hget; subst l. now apply (get_list_action_returns_empty e).
Qed.

Lemma get_list_action_returns_only_empty_witness :
  fst (get_list_action roster_placed) = Returns [] /\ (@nil BattleshipAction.t) = [].
Proof.
  split; [reflexivity |].
  apply (get_list_action_returns_only_empty roster_placed []). reflexivity.
Defined.

(** ** More on masking *)

Lemma clear_locations_spec (rs : list ref) (e : t) :
  clear_locations rs e = (Returns tt, masked rs e).
Proof.
  revert e. induction rs as [| r rs IH]; intros e; [now destruct e |].
  simpl. rewrite (bind_returns _ _ e _ tt) by reflexivity. rewrite IH. reflexivity.
Qed.

Lemma cleared_lookup_other (rs : list ref) (h : list Ship.t) (r : ref) :
  r ∉ rs -> cleared rs h !! r = h !! r.
Proof.
  revert h. induction rs as [| r' rs IH]; intros h Hr; [reflexivity |].
  apply not_elem_of_cons in Hr as [Hne Hr]. simpl.
  rewrite IH by exact Hr. now apply list_lookup_alter_ne.
Qed.

Lemma cleared_lookup_masked (rs : list ref) (h : list Ship.t) (r : ref) :
  r ∈ rs -> cleared rs h !! r = Ship.set_location (Some []) <$> h !! r.
Proof.
  revert h. induction rs as [| r' rs IH]; intros h Hr; [now apply elem_of_nil in Hr |].
  simpl. destruct (decide (r ∈ rs)) as [Hin | Hout].
  - rewrite IH by exact Hin. destruct (decide (r' = r)) as [-> | Hne].
    + rewrite list_lookup_alter_eq. now destruct (h !! r).
    + now rewrite list_lookup_alter_ne.
  - apply elem_of_cons in Hr as [-> | Hr]; [| contradiction].
    rewrite cleared_lookup_other by exact Hout. apply list_lookup_alter_eq.
Qed.

Lemma get_player_view_spec (e : t) (idx_player : Z) (j : nat) (o : PlayerState.t) :
  py_pos (players_of e) (1 - idx_player) = Some j ->
  players_of e !! j = Some o ->
  get_player_view idx_player e = (Returns (state e), masked (PlayerState.ships o) e).
Proof.
  intros Hj Ho. unfold get_player_view, get_state.
  rewrite (bind_returns _ _ e e (state e)) by reflexivity.
  rewrite (bind_returns _ _ e e o)
    by (unfold getitem; unfold players_of in *; now rewrite Hj, Ho).
  rewrite (bind_returns _ _ _ _ _ (clear_locations_spec (PlayerState.ships o) e)).
  reflexivity.
Qed.

Lemma get_player_view_raises (e : t) (idx_player : Z) :
  py_pos (players_of e) (1 - idx_player) = None ->
  get_player_view idx_player e = (Raises IndexError, e).
Proof.
  intros Hj. unfold get_player_view, get_state.
  rewrite (bind_returns _ _ e e (state e)) by reflexivity.
  apply bind_raises. unfold getitem. unfold players_of in Hj. now rewrite Hj.
Qed.

(** X14.  What [get_player_view] does, for an index whose opponent is
    there: it returns the engine's own state, not a copy, and leaves the
    state, the roster and the grid size as they are; in the store, every
    ship the opponent holds gets the empty location and keeps its name and
    length, and every other ship is untouched. *)
Theorem get_player_view_masks_opponent_in_place
    (e : t) (idx_player : Z) (j : nat) (o : PlayerState.t) :
  py_pos (players_of e) (1 - idx_player) = Some j ->
  players_of e !! j = Some o ->
  let e' := after (get_player_view idx_player) e in
  fst (get_player_view idx_player e) = Returns (state e) /\
  state e' = state e /\ ships e' = ships e /\ grid_size e' = grid_size e /\
  (forall r, r ∈ PlayerState.ships o ->
     store e' !! r = Ship.set_location (Some []) <$> store e !! r) /\
  (forall r, r ∉ PlayerState.ships o -> store e' !! r = store e !! r).
Proof.
  intros Hj Ho e'. subst e'. unfold after.
  rewrite (get_player_view_spec e idx_player j o Hj Ho). simpl.
  repeat split.
  - intros r Hr. now apply cleared_lookup_masked.
  - intros r Hr. now apply cleared_lookup_other.
Qed.

Lemma get_player_view_masks_opponent_in_place_witness :
  let e' := after (get_player_view 0) duel in
  fst (get_player_view 0 duel) = Returns (state duel) /\
  state e' = state duel /\ ships e' = ships duel /\ grid_size e' = grid_size duel /\
  (forall r, r ∈ [6%nat] ->
     store e' !! r = Ship.set_location (Some []) <$> store duel !! r) /\
  (forall r, r ∉ [6%nat] -> store e' !! r = store duel !! r).
Proof.
  apply (get_player_view_masks_opponent_in_place duel 0 1
           (PlayerState.mk "Player 2" [6%nat] [] [])); reflexivity.
Defined.

Lemma cleared_twice (rs : list ref) (h : list Ship.t) :
  cleared rs (cleared rs h) = cleared rs h.
Proof.
  apply list_eq. intros r. destruct (decide (r ∈ rs)) as [Hin | Hout].
  - rewrite !cleared_lookup_masked by exact Hin. now destruct (h !! r).
  - now rewrite !cleared_lookup_other.
Qed.

(** X15.  Taking the same view twice is taking it once: the second call of
    [get_player_view] with the same index finds nothing left to clear (and
    raises as the first did, if the first raised). *)
Theorem get_player_view_twice (e : t) (idx_player : Z) :
  after (get_player_view idx_player) (after (get_player_view idx_player) e)
  = after (get_player_view idx_player) e.
Proof.
  unfold after.
  destruct (py_pos (players_of e) (1 - idx_player)) as [j |] eqn:Hj.
  - destruct (py_pos_lookup _ _ _ Hj) as [o Ho].
    rewrite (get_player_view_spec e idx_player j o Hj Ho). simpl snd.
    rewrite (get_player_view_spec (masked (PlayerState.ships o) e) idx_player j o Hj Ho).
    simpl snd. unfold masked. simpl. now rewrite cleared_twice.
  - rewrite (get_player_view_raises e idx_player Hj). simpl snd.
    now rewrite (get_player_view_raises e idx_player Hj).
Qed.

Lemma masked_ship_cells (rs : list ref) (h : list Ship.t) (r : ref) :
  r ∈ rs -> stored h r = true -> ship_cells (cleared rs h) r = Some [].
Proof.
  intros Hr Hs. unfold ship_cells. rewrite cleared_lookup_masked by exact Hr.
  unfold stored in Hs. now destruct (h !! r).
Qed.

(** X16.  A view taken for the active player decides the game.  After
    [get_player_view] with the active index, the ships of the opponent are
    empty in the engine itself, so the next SHOOT action of the active
    player, at whatever cell, returns with the phase FINISHED and the active
    player as the winner. *)
Theorem shoot_after_own_view_wins
    (e : t) (a : BattleshipAction.t) (i j : nat)
    (target : string) (rest : list string) (o : PlayerState.t) :
  BattleshipAction.action_type a = SHOOT ->
  BattleshipAction.location a = target :: rest ->
  py_pos (players_of e) (active_index e) = Some i ->
  py_pos (players_of e) (1 - active_index e) = Some j ->
  players_of e !! j = Some o ->
  forallb (stored (store e)) (PlayerState.ships o) = true ->
  let e1 := after (get_player_view (active_index e)) e in
  let e' := after (apply_action a) e1 in
  fst (apply_action a e1) = Returns tt /\
  phase_of e' = FINISHED /\ winner_of e' = Some (active_index e).
Proof.
  intros Ha Hl Hi Hj Ho Hst e1 e'. subst e' e1.
  assert (Heq : after (get_player_view (active_index e)) e = masked (PlayerState.ships o) e)
    by (unfold after; now rewrite (get_player_view_spec e (active_index e) j o Hj Ho)).
  rewrite !Heq. clear Heq.
  set (rs := PlayerState.ships o) in *. set (e1 := masked rs e).
  assert (Hcells : forall r, r ∈ rs -> ship_cells (store e1) r = Some []).
  { intros r Hr. apply masked_ship_cells; [exact Hr |].
    rewrite forallb_forall in Hst. now apply Hst, list_elem_of_In. }
  assert (Hp : placed (store e1) rs).
  { apply Forall_forall. intros r Hr. rewrite (Hcells r Hr). now eexists. }
  unfold after.
  rewrite (apply_action_shoot e1 a i j target rest o Ha Hl Hi Hj Ho Hp).
  simpl fst. simpl snd. split; [reflexivity |]. fold rs.
  assert (Hmiss : first_hit (store e1) target rs = None).
  { apply first_hit_None. intros r Hr. unfold ship_has. now rewrite (Hcells r Hr). }
  assert (Hscan : scanned i target rs (shot i target e1) = shot i target e1).
  { unfold scanned. change (store (shot i target e1)) with (store e1).
    now rewrite Hmiss. }
  rewrite Hscan.
  destruct (advanced_settled rs (shot i target e1)) as (_ & _ & Hout).
  assert (Hsunk : forallb (ship_sunk (store (shot i target e1))) rs = true).
  { apply forallb_forall. intros r Hr. apply list_elem_of_In in Hr.
    apply ship_sunk_true. change (store (shot i target e1)) with (store e1).
    now apply Hcells. }
  rewrite Hsunk in Hout. destruct Hout as (H1 & H2 & _). now rewrite H1, H2.
Qed.

Lemma shoot_after_own_view_wins_witness :
  let e1 := after (get_player_view (active_index duel)) duel in
  let e' := after (apply_action (shoot_at "J10")) e1 in
  fst (apply_action (shoot_at "J10") e1) = Returns tt /\
  phase_of e' = FINISHED /\ winner_of e' = Some (active_index duel).
Proof.
  apply (shoot_after_own_view_wins duel (shoot_at "J10") 0 1 "J10" []
           (PlayerState.mk "Player 2" [6%nat] [] [])); reflexivity.
Defined.

(** X17.  The index of [get_player_view] is not checked: the opponent is
    [players[1 - idx_player]], read as Python reads a list.  With two
    players the call returns for the indices 0, 1, 2 and 3 and raises
    [IndexError], changing nothing, for every other; the index 2 gives the
    view of 0 and the index 3 the view of 1. *)
Theorem get_player_view_index (e : t) (idx_player : Z) :
  length (players_of e) = 2%nat ->
  (0 <= idx_player <= 3 -> fst (get_player_view idx_player e) = Returns (state e)) /\
  (~ 0 <= idx_player <= 3 -> get_player_view idx_player e = (Raises IndexError, e)) /\
  get_player_view 2 e = get_player_view 0 e /\
  get_player_view 3 e = get_player_view 1 e.
Proof.
  intros Hlen.
  destruct (players_of e) as [| p0 [| p1 [| p2 ps]]] eqn:Hps; try discriminate.
  assert (Hpos : forall j o idx, py_pos (players_of e) (1 - idx) = Some j ->
                   players_of e !! j = Some o ->
                   get_player_view idx e = (Returns (state e), masked (PlayerState.ships o) e))
    by (intros; now apply (get_player_view_spec e idx j o)).
  rewrite <- Hps in *. split; [| split; [| split]].
  - intros Hrange.
    assert (Hcases : idx_player = 0 \/ idx_player = 1 \/ idx_player = 2 \/ idx_player = 3)
      by lia.
    destruct Hcases as [-> | [-> | [-> | ->]]].
    + rewrite (Hpos 1%nat p1 0); [reflexivity | rewrite Hps; reflexivity..].
    + rewrite (Hpos 0%nat p0 1); [reflexivity | rewrite Hps; reflexivity..].
    + rewrite (Hpos 1%nat p1 2); [reflexivity | rewrite Hps; reflexivity..].
    + rewrite (Hpos 0%nat p0 3); [reflexivity | rewrite Hps; reflexivity..].
  - intros Hout. apply get_player_view_raises. rewrite Hps. unfold py_pos.
    change (Z.of_nat (length [p0; p1])) with 2.
    destruct (Z.leb_spec 0 (1 - idx_player)), (Z.ltb_spec (1 - idx_player) 2); simpl;
      try (destruct (Z.leb_spec (- (2)) (1 - idx_player)),
                    (Z.ltb_spec (1 - idx_player) 0); simpl);
      try reflexivity; lia.
  - rewrite (Hpos 1%nat p1 2), (Hpos 1%nat p1 0); [reflexivity | rewrite Hps; reflexivity..].
  - rewrite (Hpos 0%nat p0 3), (Hpos 0%nat p0 1); [reflexivity | rewrite Hps; reflexivity..].
Qed.

Lemma get_player_view_index_witness :
  (0 <= 5 <= 3 -> fst (get_player_view 5 duel) = Returns (state duel)) /\
  (~ 0 <= 5 <= 3 -> get_player_view 5 duel = (Raises IndexError, duel)) /\
  get_player_view 2 duel = get_player_view 0 duel /\
  get_player_view 3 duel = get_player_view 1 duel.
Proof. apply (get_player_view_index duel 5). reflexivity. Defined.

(** ** More on placing and hitting *)

Lemma next_named_first (nm : option string) (rs : list ref) (r : ref) (e : t) :
  next_named nm rs e = (Returns r, e) ->
  exists pre post, rs = (pre ++ r :: post)%list
    /\ Forall (fun r' => named (store e) nm r' = false) pre
    /\ named (store e) nm r = true.
Proof.
  induction rs as [| r' rs IH]; simpl; [discriminate |].
  unfold bind, deref. unfold named in *.
  destruct (store e !! r') as [s |] eqn:Hs; [| discriminate].
  destruct (name_is nm s) eqn:Hn.
  - intros H. inversion H; subst r'. exists [], rs.
    split; [reflexivity |]. split; [constructor |]. now rewrite Hs.
  - intros H. destruct (IH H) as (pre & post & -> & Hpre & Hr).
    exists (r' :: pre), post. split; [reflexivity |]. split; [| exact Hr].
    constructor; [now rewrite Hs | exact Hpre].
Qed.

(** X18.  What a placement does.  A SET_SHIP action naming a roster ship
    returns; the ship is the first of the roster with that name, the roster's
    own object.  Its location becomes the location of the action, whatever
    that is and whatever the ship had, and nothing else in the store
    changes; the ship is appended to the list of the active player, also when
    that player, or another, holds it already; the winner stays. *)
Theorem set_ship_places_roster_object
    (e : t) (a : BattleshipAction.t) (i : nat) :
  BattleshipAction.action_type a = SET_SHIP ->
  py_pos (players_of e) (active_index e) = Some i ->
  roster_in_store e = true ->
  known_ship e (BattleshipAction.ship_name a) = true ->
  let e' := after (apply_action a) e in
  exists r pre post,
    ships e = (pre ++ r :: post)%list /\
    Forall (fun r' => named (store e) (BattleshipAction.ship_name a) r' = false) pre /\
    named (store e) (BattleshipAction.ship_name a) r = true /\
    store e' = alter (Ship.set_location (Some (BattleshipAction.location a))) r (store e) /\
    players_of e' = alter (PlayerState.append_ship r) i (players_of e) /\
    winner_of e' = winner_of e.
Proof.
  intros Ha Hi Hin Hk e'. subst e'. unfold after.
  destruct (next_named_known _ _ _ Hin Hk) as (r & Hn & _).
  destruct (next_named_first _ _ _ _ Hn) as (pre & post & Hsplit & Hpre & Hr).
  exists r, pre, post. split; [exact Hsplit |]. split; [exact Hpre |]. split; [exact Hr |].
  assert (Hrun : apply_action a e
                 = (Returns tt, advanced (started i (put i r (BattleshipAction.location a) e)))).
  { unfold apply_action.
    rewrite (bind_returns _ _ e e (state e)) by reflexivity.
    rewrite (bind_returns _ _ e e i) by (apply position_returns; exact Hi).
    rewrite Ha.
    rewrite (bind_returns _ _ _ _ _
               (apply_set_ship_spec e a i r (py_pos_lookup _ _ _ Hi) Hn)).
    apply advance_turn_spec. }
  rewrite Hrun. simpl snd.
  destruct (advanced_frame (started i (put i r (BattleshipAction.location a) e)))
    as (_ & Hst & Hpl & _ & Hw).
  destruct (started_put_frame i r (BattleshipAction.location a) e)
    as (_ & _ & Hw' & Hpl' & _).
  destruct (started_roster i (put i r (BattleshipAction.location a) e)) as (_ & _ & Hst').
  rewrite Hst, Hst', Hpl, Hpl', Hw, Hw'. easy.
Qed.

Lemma set_ship_places_roster_object_witness :
  let e' := after (apply_action carrier_A1) shared_carrier in
  exists r pre post,
    ships shared_carrier = (pre ++ r :: post)%list /\
    Forall (fun r' => named (store shared_carrier) (Some "Carrier") r' = false) pre /\
    named (store shared_carrier) (Some "Carrier") r = true /\
    store e' = alter (Ship.set_location (Some ["A1"; "A2"; "A3"; "A4"; "A5"])) r
                 (store shared_carrier) /\
    players_of e' = alter (PlayerState.append_ship r) 0%nat (players_of shared_carrier) /\
    winner_of e' = winner_of shared_carrier.
Proof.
  apply (set_ship_places_roster_object shared_carrier carrier_A1 0); reflexivity.
Defined.

Lemma py_remove_length (c : string) (l : list string) :
  py_in c l = true -> S (length (py_remove c l)) = length l.
Proof.
  induction l as [| y l IH]; simpl; [discriminate |].
  destruct (String.eqb c y); [reflexivity |]. simpl. intros H. now rewrite IH.
Qed.

Lemma py_remove_count (c x : string) (l : list string) :
  py_in c l = true ->
  count_occ string_dec (py_remove c l) x
  = if String.eqb c x then pred (count_occ string_dec l x) else count_occ string_dec l x.
Proof.
  induction l as [| y l IH]; simpl; [discriminate |].
  destruct (String.eqb_spec c y) as [<- | Hcy]; simpl.
  - intros _. destruct (string_dec c x) as [-> | Hne].
    + now rewrite String.eqb_refl.
    + apply String.eqb_neq in Hne. now rewrite Hne.
  - intros H. rewrite (IH H).
    destruct (string_dec y x) as [-> | Hyx]; [| reflexivity].
    apply String.eqb_neq in Hcy. now rewrite Hcy.
Qed.

(** X19.  A hit takes one cell away, and one only.  When the loop of a
    SHOOT action finds the target on a ship, the location of that ship is
    one cell shorter after the call: the first occurrence of the target is
    gone, so a cell the location lists twice is still there once, and the
    other cells are as many as before. *)
Theorem hit_takes_one_cell
    (e : t) (a : BattleshipAction.t) (i j : nat) (target : string) (rest : list string)
    (o : PlayerState.t) (r : ref) (cells : list string) :
  BattleshipAction.action_type a = SHOOT ->
  BattleshipAction.location a = target :: rest ->
  py_pos (players_of e) (active_index e) = Some i ->
  py_pos (players_of e) (1 - active_index e) = Some j ->
  players_of e !! j = Some o ->
  placed (store e) (PlayerState.ships o) ->
  first_hit (store e) target (PlayerState.ships o) = Some r ->
  ship_cells (store e) r = Some cells ->
  let e' := after (apply_action a) e in
  ship_cells (store e') r = Some (py_remove target cells) /\
  S (length (py_remove target cells)) = length cells /\
  forall c, count_occ string_dec (py_remove target cells) c
            = if String.eqb target c then pred (count_occ string_dec cells c)
              else count_occ string_dec cells c.
Proof.
  intros Ha Hl Hi Hj Ho Hp Hf Hc e'. subst e'. unfold after.
  rewrite (apply_action_shoot e a i j target rest o Ha Hl Hi Hj Ho Hp). simpl snd.
  destruct (py_pos_lookup _ _ _ Hi) as [p Hpi].
  destruct (scanned_hit e i target _ p r cells Hpi Hf Hc) as (_ & Hs2).
  destruct (advanced_settled (PlayerState.ships o)
              (scanned i target (PlayerState.ships o) (shot i target e))) as (Hst & _).
  rewrite Hst, Hs2.
  assert (Hin : py_in target cells = true).
  { pose proof (first_hit_Some _ _ _ _ Hf) as H. unfold ship_has in H. now rewrite Hc in H. }
  split; [| split].
  - unfold ship_cells in *. rewrite list_lookup_alter_eq.
    destruct (store e !! r) as [s |]; [reflexivity | discriminate].
  - now apply py_remove_length.
  - intros c. now apply py_remove_count.
Qed.

Lemma hit_takes_one_cell_witness :
  let e' := after (apply_action (shoot_at "B1")) duel in
  ship_cells (store e') 6 = Some (py_remove "B1" ["B1"; "B2"]) /\
  S (length (py_remove "B1" ["B1"; "B2"])) = length ["B1"; "B2"] /\
  forall c, count_occ string_dec (py_remove "B1" ["B1"; "B2"]) c
            = if String.eqb "B1" c then pred (count_occ string_dec ["B1"; "B2"] c)
              else count_occ string_dec ["B1"; "B2"] c.
Proof.
  apply (hit_takes_one_cell duel (shoot_at "B1") 0 1 "B1" []
           (PlayerState.mk "Player 2" [6%nat] [] []) 6 ["B1"; "B2"]); try reflexivity.
  repeat constructor. exists ["B1"; "B2"]. reflexivity.
Defined.

(** ** The random player *)

Lemma choice_member {A : Type} (k : nat) (l : list A) (e : t) :
  l <> [] -> exists x, choice k l e = (Returns x, e) /\ x ∈ l.
Proof.
  intros Hl. unfold choice.
  assert (Hlt : (k mod length l < length l)%nat)
    by (apply Nat.mod_upper_bound; destruct l; [congruence | discriminate]).
  destruct (lookup_lt_is_Some_2 l _ Hlt) as [x Hx]. rewrite Hx.
  exists x. split; [reflexivity |]. eapply list_elem_of_lookup_2. exact Hx.
Qed.

(** X20.  [select_action] never raises and never touches the engine; it
    does not look at the state it is given.  On the empty list it returns
    [None]; on any other list it returns an action of the list, and every
    action of the list is returned for some draw. *)
Theorem select_action_picks_from_the_list
    (state : BattleshipGameState.t) (actions : list BattleshipAction.t) (e : t) :
  (actions = [] -> forall k, RandomPlayer.select_action k state actions e = (Returns None, e))
  /\ (actions <> [] ->
      (forall k, exists a, RandomPlayer.select_action k state actions e = (Returns (Some a), e)
                           /\ a ∈ actions)
      /\ (forall a, a ∈ actions ->
            exists k, RandomPlayer.select_action k state actions e = (Returns (Some a), e))).
Proof.
  split.
  - intros -> k. reflexivity.
  - intros Hne.
    assert (Hlen : (0 <? length actions)%nat = true)
      by (apply Nat.ltb_lt; destruct actions; [congruence | simpl; lia]).
    split.
    + intros k. unfold RandomPlayer.select_action. rewrite Hlen.
      destruct (choice_member k actions e Hne) as (a & Ha & Hin).
      exists a. split; [| exact Hin]. now rewrite (bind_returns _ _ _ _ _ Ha).
    + intros a Ha. apply list_elem_of_lookup_1 in Ha as [k Hk].
      exists k. unfold RandomPlayer.select_action. rewrite Hlen.
      rewrite (bind_returns _ _ e e a); [reflexivity |]. unfold choice.
      rewrite Nat.mod_small by (eapply lookup_lt_Some; exact Hk). now rewrite Hk.
Qed.

Lemma select_action_picks_from_the_list_witness :
  (forall k, exists a,
      RandomPlayer.select_action k (state init) [carrier_A1; destroyer_J1] init
      = (Returns (Some a), init)
      /\ a ∈ [carrier_A1; destroyer_J1])
  /\ (forall a, a ∈ [carrier_A1; destroyer_J1] ->
        exists k,
          RandomPlayer.select_action k (state init) [carrier_A1; destroyer_J1] init
          = (Returns (Some a), init)).
Proof.
  apply (select_action_picks_from_the_list (state init) [carrier_A1; destroyer_J1] init).
  discriminate.
Defined.

(** ** The script *)




(** X22.  From a new engine, [apply_action] alone never starts the game.
    In every state reached by calls of [apply_action], whatever the actions
    and however the calls end, the active index is 0, the second player holds
    no ship, and the phase is SETUP or FINISHED, never RUNNING: the turn never
    passes during the setup, so the second player cannot place a ship. *)
Theorem apply_action_never_starts_the_game (e : t) :
  reachable e ->
  active_index e = 0 /\
  (exists p1, players_of e !! 1%nat = Some p1 /\ PlayerState.ships p1 = []) /\
  (phase_of e = SETUP \/ phase_of e = FINISHED).
Proof.
  intros Hr.
  destruct (reachable_first_player_only e Hr) as ((Hidx & _ & p0 & p1 & Hpl & Hp1) & Hph & _).
  split; [exact Hidx |]. split.
  - exists p1. rewrite Hpl. split; [reflexivity | exact Hp1].
  - destruct (phase_of e); [now left | congruence | now right].
Qed.

Lemma apply_action_never_starts_the_game_witness :
  active_index roster_placed = 0 /\
  (exists p1, players_of roster_placed !! 1%nat = Some p1 /\ PlayerState.ships p1 = []) /\
  (phase_of roster_placed = SETUP \/ phase_of roster_placed = FINISHED).
Proof.
  apply (apply_action_never_starts_the_game roster_placed).
  unfold roster_placed. do 5 apply reachable_apply. apply reachable_init.
Defined.
